(** * Order processing system: reserve, charge, compensate

    A shallow embedding of the three services of the repository

    - [pkg/inventory/service.go]  the stock ledger,
    - [pkg/payment/service.go]    the simulated payment gateway,
    - [pkg/order/service.go]      the order orchestrator,

    followed by the properties of the natural-language specification that
    are stated about them.

    Conventions.  A Go [int32] is a [Z] whose arithmetic wraps around
    ([Int32.add], [Int32.sub]); a Go [float64] is a primitive binary64
    float; a Go [map[string]*T] is a [gmap string T] (the pointed-to record
    is updated by re-inserting it under its key); a Go [(value, error)]
    pair is a [result].  Loggers, metrics and the mutexes are not
    modelled: every service method holds its mutex from entry to exit, so
    a method call is one atomic step of the state. *)

From Stdlib Require Import ZArith Floats Uint63 Lia Bool Ascii.
From stdpp Require Import gmap strings list fin_maps pretty.

Set Warnings "-inexact-float".
Local Open Scope Z_scope.

(** ** Go prelude *)

(** A Go [error] is identified with its message ([err.Error()]). *)
Inductive result (A : Type) : Type :=
| Ok (a : A)
| Err (e : string).
Arguments Ok {A} a.
Arguments Err {A} e.

(** [fmt.Sprintf("%d", z)]. *)
Definition fmt_d (z : Z) : string := pretty z.

Module Int32.
Definition min_int : Z := -2147483648.
Definition max_int : Z := 2147483647.

Definition in_range (z : Z) : Prop := min_int ≤ z ≤ max_int.

(** Two's complement reduction of an integer to 32 bits. *)
Definition wrap (z : Z) : Z := (z + 2147483648) mod 4294967296 - 2147483648.

Definition add (x y : Z) : Z := wrap (x + y).
Definition sub (x y : Z) : Z := wrap (x - y).
End Int32.

(** [float64(q)] for an [int32] [q]. *)
Definition float64_of_int32 (q : Z) : float :=
  if q <? 0
  then PrimFloat.opp (PrimFloat.of_uint63 (Uint63.of_Z (- q)))
  else PrimFloat.of_uint63 (Uint63.of_Z q).

(** ** Package [time], [uuid], [math/rand]: the ambient effects

    The services read a clock, draw identifiers and random numbers, and
    sleep.  They are written against these interfaces over an abstract
    world [W]; [system.World] below instantiates them. *)

Module time.
(** A clock reading, seen through the two observations the code makes
    of it: [t.Unix()] and [t.Format(time.RFC3339)]. *)
Record Time := { Unix : Z; RFC3339 : string }.
End time.

Class Runtime (W : Type) := {
  uuid_New : W → string * W;          (* uuid.New().String() *)
  time_Now : W → time.Time * W;       (* time.Now() *)
  time_Sleep : Z → W → W              (* time.Sleep(ms * time.Millisecond) *)
}.

Class Rand (W : Type) := {
  rand_Intn : Z → W → Z * W;          (* s.rand.Intn(n) *)
  rand_Float32 : W → float * W        (* s.rand.Float32(), as a binary64 *)
}.

(** ** Message types of the generated [pb] packages *)

Module inventorypb.
Record Product := {
  Id : string;
  Name : string;
  StockQuantity : Z;                (* int32 *)
  Price : float
}.

Module ReserveStockRequest.
Record t := { ProductId : string; Quantity : Z; OrderId : string }.
End ReserveStockRequest.

Module ReserveStockResponse.
Record t := { Success : bool; Message : string; ReservedQuantity : Z }.
End ReserveStockResponse.

Module ReleaseStockRequest.
Record t := { ProductId : string; Quantity : Z; OrderId : string }.
End ReleaseStockRequest.

Module ReleaseStockResponse.
Record t := { Success : bool; Message : string }.
End ReleaseStockResponse.

(** The client stub the orchestrator holds. *)
Class InventoryServiceClient (W : Type) := {
  ReserveStock : ReserveStockRequest.t → W → result ReserveStockResponse.t * W;
  ReleaseStock : ReleaseStockRequest.t → W → result ReleaseStockResponse.t * W
}.
End inventorypb.

Module paymentpb.
(** Modelled from the spec: the enumeration [PaymentStatus] is declared in
    the generated package, which is not among the sources.  The spec
    names SUCCESS and FAILED; a proto3 enumeration is open, so any other
    number is a value of the type too. *)
Inductive PaymentStatus :=
| PaymentStatus_PAYMENT_STATUS_SUCCESS
| PaymentStatus_PAYMENT_STATUS_FAILED
| PaymentStatus_other (n : Z).

Record PaymentRequest := {
  OrderId : string;
  CustomerId : string;
  Amount : float;
  Currency : string;
  PaymentMethod : string
}.

Record PaymentResponse := {
  PaymentId : string;
  Status : PaymentStatus;
  Message : string;
  TransactionId : string
}.

Class PaymentServiceClient (W : Type) := {
  ProcessPayment : PaymentRequest → W → result PaymentResponse * W
}.
End paymentpb.

Module orderpb.
(** Modelled from the spec: the enumeration [OrderStatus] is declared in
    the generated package, which is not among the sources.  The spec
    names PENDING, PROCESSING, COMPLETED and CANCELLED; the enumeration
    is open as above. *)
Inductive OrderStatus :=
| OrderStatus_ORDER_STATUS_PENDING
| OrderStatus_ORDER_STATUS_PROCESSING
| OrderStatus_ORDER_STATUS_COMPLETED
| OrderStatus_ORDER_STATUS_CANCELLED
| OrderStatus_other (n : Z).

Record OrderItem := {
  ProductId : string;
  Quantity : Z;                     (* int32 *)
  UnitPrice : float
}.

Record Order := {
  Id : string;
  CustomerId : string;
  Items : list OrderItem;
  TotalAmount : float;
  Status : OrderStatus;
  CreatedAt : string;
  UpdatedAt : string
}.
End orderpb.

(** ** [pkg/inventory/service.go] *)

Module inventory.
Import inventorypb.

Record service := { products : gmap string Product }.

(** [product.StockQuantity = q], through the pointer held by the map. *)
Definition set_stock (q : Z) (p : Product) : Product :=
  {| Id := Id p; Name := Name p; StockQuantity := q; Price := Price p |}.

Definition NewService : service :=
  {| products :=
       <["product-1" := {| Id := "product-1"; Name := "Laptop";
                           StockQuantity := 50; Price := 999.99%float |}]>
       (<["product-2" := {| Id := "product-2"; Name := "Mouse";
                            StockQuantity := 100; Price := 29.99%float |}]>
       (<["product-3" := {| Id := "product-3"; Name := "Keyboard";
                            StockQuantity := 75; Price := 79.99%float |}]> ∅)) |}.

Definition ReserveStock (s : service) (productID : string) (quantity : Z)
    (orderID : string) : result ReserveStockResponse.t * service :=
  match products s !! productID with
  | None =>
      (Ok {| ReserveStockResponse.Success := false;
             ReserveStockResponse.Message := "Product not found: " +:+ productID;
             ReserveStockResponse.ReservedQuantity := 0 |}, s)
  | Some product =>
      if StockQuantity product <? quantity then
        (Ok {| ReserveStockResponse.Success := false;
               ReserveStockResponse.Message :=
                 "Insufficient stock. Available: " +:+ fmt_d (StockQuantity product)
                 +:+ ", Requested: " +:+ fmt_d quantity;
               ReserveStockResponse.ReservedQuantity := 0 |}, s)
      else
        (Ok {| ReserveStockResponse.Success := true;
               ReserveStockResponse.Message := "Stock reserved successfully";
               ReserveStockResponse.ReservedQuantity := quantity |},
         {| products :=
              <[productID := set_stock (Int32.sub (StockQuantity product) quantity) product]>
                (products s) |})
  end.

Definition ReleaseStock (s : service) (productID : string) (quantity : Z)
    (orderID : string) : result ReleaseStockResponse.t * service :=
  match products s !! productID with
  | None =>
      (Ok {| ReleaseStockResponse.Success := false;
             ReleaseStockResponse.Message := "Product not found: " +:+ productID |}, s)
  | Some product =>
      (Ok {| ReleaseStockResponse.Success := true;
             ReleaseStockResponse.Message := "Stock released successfully" |},
       {| products :=
            <[productID := set_stock (Int32.add (StockQuantity product) quantity) product]>
              (products s) |})
  end.

Definition GetProductStock (s : service) (productID : string) : result Product :=
  match products s !! productID with
  | None => Err ("product not found: " +:+ productID)
  | Some product => Ok product
  end.

(** Every stock counter is a value of its type, [int32]. *)
Definition wf (s : service) : Prop :=
  map_Forall (λ _ p, Int32.in_range (StockQuantity p)) (products s).

(** The invariant of the specification: no counter is negative. *)
Definition non_negative (s : service) : Prop :=
  map_Forall (λ _ p, 0 ≤ StockQuantity p) (products s).

(** Sequences of ledger operations, as the two mutating methods are
    called one after the other under the service mutex. *)
Inductive Op :=
| Reserve (productID : string) (quantity : Z) (orderID : string)
| Release (productID : string) (quantity : Z) (orderID : string).

Definition quantity_of (op : Op) : Z :=
  match op with Reserve _ q _ | Release _ q _ => q end.

Definition step (s : service) (op : Op) : service :=
  match op with
  | Reserve p q o => snd (ReserveStock s p q o)
  | Release p q o => snd (ReleaseStock s p q o)
  end.

Definition run (s : service) (ops : list Op) : service := fold_left step ops s.

(** A release fits when the counter it adds to stays within [int32]. *)
Definition fits (s : service) (op : Op) : bool :=
  match op with
  | Reserve _ _ _ => true
  | Release p q _ =>
      match products s !! p with
      | None => true
      | Some product => StockQuantity product + q <=? Int32.max_int
      end
  end.

Fixpoint no_overflow (s : service) (ops : list Op) : bool :=
  match ops with
  | [] => true
  | op :: rest => fits s op && no_overflow (step s op) rest
  end.
End inventory.

(** ** [pkg/payment/service.go] *)

Module payment.
Import paymentpb.

(** The constant [0.9] at type [float32]. *)
Definition float32_0_9 : float := 0x1.ccccccp-1%float.

Section Service.
Context {W : Type} `{!Runtime W, !Rand W}.

Definition ProcessPayment (req : PaymentRequest) (w : W)
    : result PaymentResponse * W :=
  let '(paymentID, w) := uuid_New w in
  let '(now, w) := time_Now w in
  let transactionID := "txn_" +:+ fmt_d (time.Unix now) in
  let '(n, w) := rand_Intn 500 w in
  let w := time_Sleep (n + 100) w in
  let '(u, w) := rand_Float32 w in
  let success := PrimFloat.ltb u float32_0_9 in
  if success then
    (Ok {| PaymentId := paymentID;
           Status := PaymentStatus_PAYMENT_STATUS_SUCCESS;
           Message := "Payment processed successfully";
           TransactionId := transactionID |}, w)
  else
    (Ok {| PaymentId := paymentID;
           Status := PaymentStatus_PAYMENT_STATUS_FAILED;
           Message := "Payment declined by bank";
           TransactionId := transactionID |}, w).
End Service.
End payment.

(** ** [pkg/order/service.go] *)

Module order.
Import orderpb.

Record service := { orders : gmap string Order }.

Definition NewService : service := {| orders := ∅ |}.

Definition set_status (status : OrderStatus) (updatedAt : string) (o : Order) : Order :=
  {| Id := Id o; CustomerId := CustomerId o; Items := Items o;
     TotalAmount := TotalAmount o; Status := status;
     CreatedAt := CreatedAt o; UpdatedAt := updatedAt |}.

Definition is_success (st : paymentpb.PaymentStatus) : bool :=
  match st with
  | paymentpb.PaymentStatus_PAYMENT_STATUS_SUCCESS => true
  | _ => false
  end.

(** The first loop of [CreateOrder]. *)
Definition totalAmount (items : list OrderItem) : float :=
  fold_left
    (λ total item, (total + UnitPrice item * float64_of_int32 (Quantity item))%float)
    items 0%float.

Definition reserveReq (orderID : string) (item : OrderItem)
    : inventorypb.ReserveStockRequest.t :=
  {| inventorypb.ReserveStockRequest.ProductId := ProductId item;
     inventorypb.ReserveStockRequest.Quantity := Quantity item;
     inventorypb.ReserveStockRequest.OrderId := orderID |}.

Definition releaseReq (orderID : string) (item : OrderItem)
    : inventorypb.ReleaseStockRequest.t :=
  {| inventorypb.ReleaseStockRequest.ProductId := ProductId item;
     inventorypb.ReleaseStockRequest.Quantity := Quantity item;
     inventorypb.ReleaseStockRequest.OrderId := orderID |}.

Definition paymentReq (o : Order) : paymentpb.PaymentRequest :=
  {| paymentpb.OrderId := Id o;
     paymentpb.CustomerId := CustomerId o;
     paymentpb.Amount := TotalAmount o;
     paymentpb.Currency := "USD";
     paymentpb.PaymentMethod := "credit_card" |}.

Section Orchestrator.
Context {W : Type}
  `{!inventorypb.InventoryServiceClient W, !paymentpb.PaymentServiceClient W,
    !Runtime W}.

(** Lines 47-65: the identifier, the total and the order object. *)
Definition newOrder (customerID : string) (items : list OrderItem) (w : W)
    : Order * W :=
  let '(orderID, w) := uuid_New w in
  let '(createdAt, w) := time_Now w in
  let '(updatedAt, w) := time_Now w in
  ({| Id := orderID; CustomerId := customerID; Items := items;
      TotalAmount := totalAmount items;
      Status := OrderStatus_ORDER_STATUS_PENDING;
      CreatedAt := time.RFC3339 createdAt;
      UpdatedAt := time.RFC3339 updatedAt |}, w).

(** Lines 68-85: the reservation loop; [Some err] is its early return. *)
Fixpoint reserveItems (orderID : string) (items : list OrderItem) (w : W)
    : option string * W :=
  match items with
  | [] => (None, w)
  | item :: rest =>
      let '(r, w) := inventorypb.ReserveStock (reserveReq orderID item) w in
      match r with
      | Err err =>
          (Some ("failed to reserve stock for product " +:+ ProductId item
                 +:+ ": " +:+ err), w)
      | Ok reserveResp =>
          if inventorypb.ReserveStockResponse.Success reserveResp
          then reserveItems orderID rest w
          else
            (Some ("insufficient stock for product " +:+ ProductId item
                   +:+ ": " +:+ inventorypb.ReserveStockResponse.Message reserveResp), w)
      end
  end.

(** Lines 161-174: an error of a release is logged and dropped. *)
Fixpoint releaseStockForOrder (orderID : string) (items : list OrderItem) (w : W) : W :=
  match items with
  | [] => w
  | item :: rest =>
      let '(_, w) := inventorypb.ReleaseStock (releaseReq orderID item) w in
      releaseStockForOrder orderID rest w
  end.

Definition CreateOrder (s : service) (customerID : string)
    (items : list OrderItem) (w : W) : result Order * service * W :=
  let '(order, w) := newOrder customerID items w in
  let orderID := Id order in
  match reserveItems orderID items w with
  | (Some err, w) => (Err err, s, w)
  | (None, w) =>
      let '(r, w) := paymentpb.ProcessPayment (paymentReq order) w in
      match r with
      | Err err =>
          let w := releaseStockForOrder orderID items w in
          (Err ("payment processing failed: " +:+ err), s, w)
      | Ok paymentResp =>
          if negb (is_success (paymentpb.Status paymentResp)) then
            let w := releaseStockForOrder orderID items w in
            (Err ("payment failed: " +:+ paymentpb.Message paymentResp), s, w)
          else
            let '(now, w) := time_Now w in
            let order :=
              set_status OrderStatus_ORDER_STATUS_PROCESSING (time.RFC3339 now) order in
            (Ok order, {| orders := <[orderID := order]> (orders s) |}, w)
      end
  end.

Definition GetOrder (s : service) (orderID : string) : result Order :=
  match orders s !! orderID with
  | None => Err ("order not found: " +:+ orderID)
  | Some order => Ok order
  end.

Definition UpdateOrderStatus (s : service) (orderID : string)
    (status : OrderStatus) (w : W) : result Order * service * W :=
  match orders s !! orderID with
  | None => (Err ("order not found: " +:+ orderID), s, w)
  | Some order =>
      let '(now, w) := time_Now w in
      let order := set_status status (time.RFC3339 now) order in
      (Ok order, {| orders := <[orderID := order]> (orders s) |}, w)
  end.
End Orchestrator.



End order.

(** ** The three services wired together

    [World] is everything outside the orchestrator: the ledger at the other
    end of the inventory connection, the record of the requests sent, and
    the sources the ambient effects read from.  A remote call first goes
    through [dial]: the request is recorded, and the next entry of the
    fault schedule tells whether the call fails in transport (the callee
    is then not reached); an exhausted schedule is a healthy connection. *)

Module system.
Inductive Rpc :=
| RpcReserveStock (req : inventorypb.ReserveStockRequest.t)
| RpcReleaseStock (req : inventorypb.ReleaseStockRequest.t)
| RpcProcessPayment (req : paymentpb.PaymentRequest).

Record World := {
  ledger : inventory.service;
  wire : list Rpc;                  (* requests sent, oldest first *)
  faults : list bool;               (* true: the next call fails in transport *)
  uuids : list string;              (* what uuid.New() returns next *)
  clock : list time.Time;           (* what time.Now() returns next *)
  ints : list Z;                    (* what rand.Intn returns next *)
  floats : list float;              (* what rand.Float32 returns next *)
  slept : list Z                    (* durations slept, in ms, oldest first *)
}.

Definition pop {A} (d : A) (l : list A) : A * list A :=
  match l with
  | [] => (d, [])
  | x :: l => (x, l)
  end.

Definition epoch : time.Time := {| time.Unix := 0; time.RFC3339 := "1970-01-01T00:00:00Z" |}.

Definition with_ledger (l : inventory.service) (w : World) : World :=
  {| ledger := l; wire := wire w; faults := faults w; uuids := uuids w;
     clock := clock w; ints := ints w; floats := floats w; slept := slept w |}.

Definition dial (call : Rpc) (w : World) : bool * World :=
  let '(fault, rest) := pop false (faults w) in
  (negb fault,
   {| ledger := ledger w; wire := wire w ++ [call]; faults := rest; uuids := uuids w;
      clock := clock w; ints := ints w; floats := floats w; slept := slept w |}).

Definition unavailable : string := "rpc error: code = Unavailable".

#[export] Instance world_runtime : Runtime World := {|
  uuid_New w :=
    let '(id, rest) := pop "" (uuids w) in
    (id, {| ledger := ledger w; wire := wire w; faults := faults w; uuids := rest;
            clock := clock w; ints := ints w; floats := floats w; slept := slept w |});
  time_Now w :=
    let '(t, rest) := pop epoch (clock w) in
    (t, {| ledger := ledger w; wire := wire w; faults := faults w; uuids := uuids w;
           clock := rest; ints := ints w; floats := floats w; slept := slept w |});
  time_Sleep ms w :=
    {| ledger := ledger w; wire := wire w; faults := faults w; uuids := uuids w;
       clock := clock w; ints := ints w; floats := floats w; slept := slept w ++ [ms] |}
|}.

#[export] Instance world_rand : Rand World := {|
  rand_Intn n w :=
    let '(k, rest) := pop 0 (ints w) in
    (k, {| ledger := ledger w; wire := wire w; faults := faults w; uuids := uuids w;
           clock := clock w; ints := rest; floats := floats w; slept := slept w |});
  rand_Float32 w :=
    let '(u, rest) := pop 0%float (floats w) in
    (u, {| ledger := ledger w; wire := wire w; faults := faults w; uuids := uuids w;
           clock := clock w; ints := ints w; floats := rest; slept := slept w |})
|}.

#[export] Instance world_inventory : inventorypb.InventoryServiceClient World := {|
  inventorypb.ReserveStock req w :=
    let '(up, w) := dial (RpcReserveStock req) w in
    if up then
      let '(r, l) :=
        inventory.ReserveStock (ledger w)
          (inventorypb.ReserveStockRequest.ProductId req)
          (inventorypb.ReserveStockRequest.Quantity req)
          (inventorypb.ReserveStockRequest.OrderId req) in
      (r, with_ledger l w)
    else (Err unavailable, w);
  inventorypb.ReleaseStock req w :=
    let '(up, w) := dial (RpcReleaseStock req) w in
    if up then
      let '(r, l) :=
        inventory.ReleaseStock (ledger w)
          (inventorypb.ReleaseStockRequest.ProductId req)
          (inventorypb.ReleaseStockRequest.Quantity req)
          (inventorypb.ReleaseStockRequest.OrderId req) in
      (r, with_ledger l w)
    else (Err unavailable, w)
|}.

#[export] Instance world_payment : paymentpb.PaymentServiceClient World := {|
  paymentpb.ProcessPayment req w :=
    let '(up, w) := dial (RpcProcessPayment req) w in
    if up then payment.ProcessPayment req w else (Err unavailable, w)
|}.

(** The order service of the deployment. *)
Definition CreateOrder := order.CreateOrder (W := World).

(** The demand of a list of line items for one product. *)
Definition demand (productID : string) (items : list orderpb.OrderItem) : Z :=
  foldr (λ item acc,
           if decide (orderpb.ProductId item = productID)
           then orderpb.Quantity item + acc else acc) 0 items.

(** The first [n] calls to come are not hit by a transport fault. *)
Definition healthy (n : nat) (w : World) : Prop :=
  Forall (λ fault, fault = false) (take n (faults w)).

(** The record of a product after its counter moved by [d]. *)
Definition shifted (d : Z) (p : inventorypb.Product) : inventorypb.Product :=
  inventory.set_stock (Int32.wrap (inventorypb.StockQuantity p + d)) p.

Definition reserveRpc (orderID : string) (item : orderpb.OrderItem) : Rpc :=
  RpcReserveStock (order.reserveReq orderID item).

Definition releaseRpc (orderID : string) (item : orderpb.OrderItem) : Rpc :=
  RpcReleaseStock (order.releaseReq orderID item).

(** The ledger operation a delivered request performs. *)
Definition reserveOp (orderID : string) (item : orderpb.OrderItem) : inventory.Op :=
  inventory.Reserve (orderpb.ProductId item) (orderpb.Quantity item) orderID.

Definition releaseOp (orderID : string) (item : orderpb.OrderItem) : inventory.Op :=
  inventory.Release (orderpb.ProductId item) (orderpb.Quantity item) orderID.

(** The charge did not go through: an error, or a status other than SUCCESS. *)
Definition charge_failed (r : result paymentpb.PaymentResponse) : Prop :=
  match r with
  | Err _ => True
  | Ok resp => paymentpb.Status resp ≠ paymentpb.PaymentStatus_PAYMENT_STATUS_SUCCESS
  end.
End system.

(** ** Scenarios

    The sample catalogue of [inventory.NewService], an empty order table,
    and worlds whose sources are fixed: the gateway declines when the
    number it draws is not below 0.9. *)

Module scenario.
Definition laptop (quantity : Z) : orderpb.OrderItem :=
  {| orderpb.ProductId := "product-1"; orderpb.Quantity := quantity;
     orderpb.UnitPrice := 999.99%float |}.

Definition mouse (quantity : Z) : orderpb.OrderItem :=
  {| orderpb.ProductId := "product-2"; orderpb.Quantity := quantity;
     orderpb.UnitPrice := 29.99%float |}.

Definition world (draw : float) : system.World :=
  {| system.ledger := inventory.NewService;
     system.wire := [];
     system.faults := [];
     system.uuids := ["uuid-1"; "uuid-2"];
     system.clock :=
       [ {| time.Unix := 1700000000; time.RFC3339 := "2023-11-14T22:13:20Z" |};
         {| time.Unix := 1700000000; time.RFC3339 := "2023-11-14T22:13:20Z" |};
         {| time.Unix := 1700000001; time.RFC3339 := "2023-11-14T22:13:21Z" |};
         {| time.Unix := 1700000002; time.RFC3339 := "2023-11-14T22:13:22Z" |} ];
     system.ints := [250];
     system.floats := [draw];
     system.slept := [] |}.

Definition declining : system.World := world 0.9375%float.
Definition accepting : system.World := world 0.25%float.

(** The declining world behind a connection that drops the fourth call. *)
Definition dropping : system.World :=
  {| system.ledger := system.ledger declining;
     system.wire := system.wire declining;
     system.faults := [false; false; false; true];
     system.uuids := system.uuids declining;
     system.clock := system.clock declining;
     system.ints := system.ints declining;
     system.floats := system.floats declining;
     system.slept := system.slept declining |}.
End scenario.

(** ** Observers of a run of the ledger

    What a caller of the ledger sees along a sequence of operations: which
    product an operation names, and how many units the operations that
    returned success = true took from a product and gave back to it. *)

Module accounting.
Import inventorypb inventory.

Definition product_of (op : Op) : string :=
  match op with Reserve p _ _ | Release p _ _ => p end.

Definition is_release (op : Op) : Prop :=
  match op with Release _ _ _ => True | Reserve _ _ _ => False end.

(** The record of the product an operation names, after the operation. *)
Definition touched (op : Op) (product : Product) : Product :=
  match op with
  | Reserve _ q _ =>
      if StockQuantity product <? q then product
      else set_stock (Int32.sub (StockQuantity product) q) product
  | Release _ q _ => set_stock (Int32.add (StockQuantity product) q) product
  end.

(** The success flag of the response to [op] in the state [s]. *)
Definition granted (s : service) (op : Op) : bool :=
  match op with
  | Reserve p q o =>
      match fst (ReserveStock s p q o) with
      | Ok resp => ReserveStockResponse.Success resp
      | Err _ => false
      end
  | Release p q o =>
      match fst (ReleaseStock s p q o) with
      | Ok resp => ReleaseStockResponse.Success resp
      | Err _ => false
      end
  end.

(** Units of [p] handed out by the reservations that were granted. *)
Fixpoint reserved_units (p : string) (s : service) (ops : list Op) : Z :=
  match ops with
  | [] => 0
  | op :: rest =>
      (match op with
       | Reserve p' q _ => if decide (p' = p) then if granted s op then q else 0 else 0
       | Release _ _ _ => 0
       end) + reserved_units p (step s op) rest
  end.

(** Units of [p] taken back by the releases that were granted. *)
Fixpoint released_units (p : string) (s : service) (ops : list Op) : Z :=
  match ops with
  | [] => 0
  | op :: rest =>
      (match op with
       | Release p' q _ => if decide (p' = p) then if granted s op then q else 0 else 0
       | Reserve _ _ _ => 0
       end) + released_units p (step s op) rest
  end.
End accounting.

(** [err == nil] for a returned pair. *)
Definition is_Ok {A} (r : result A) : bool :=
  match r with Ok _ => true | Err _ => false end.

(** ** [pkg/observability/logging.go]: the business metrics

    A counter vector is the map from the values of its labels to the
    number of [Inc] calls made with them; a gauge vector is the map to the
    value last [Set].  Only the vectors the request handlers write are
    kept. *)

Module observability.
Record Metrics := {
  OrdersCreated : gmap string nat;                      (* status *)
  PaymentsProcessed : gmap string nat;                  (* status *)
  InventoryReservations : gmap (string * string) nat;   (* product_id, status *)
  CurrentStock : gmap (string * string) float           (* product_id, product_name *)
}.

Definition no_metrics : Metrics :=
  {| OrdersCreated := ∅; PaymentsProcessed := ∅;
     InventoryReservations := ∅; CurrentStock := ∅ |}.

(** [vec.WithLabelValues(k).Inc()] *)
Definition Inc {K} `{Countable K} (k : K) (vec : gmap K nat) : gmap K nat :=
  <[k := S (default 0%nat (vec !! k))]> vec.

(** The count a scrape reads for the label values [k]. *)
Definition value {K} `{Countable K} (k : K) (vec : gmap K nat) : nat :=
  default 0%nat (vec !! k).

Definition inc_OrdersCreated (status : string) (m : Metrics) : Metrics :=
  {| OrdersCreated := Inc status (OrdersCreated m);
     PaymentsProcessed := PaymentsProcessed m;
     InventoryReservations := InventoryReservations m;
     CurrentStock := CurrentStock m |}.

Definition inc_PaymentsProcessed (status : string) (m : Metrics) : Metrics :=
  {| OrdersCreated := OrdersCreated m;
     PaymentsProcessed := Inc status (PaymentsProcessed m);
     InventoryReservations := InventoryReservations m;
     CurrentStock := CurrentStock m |}.

Definition inc_InventoryReservations (productID status : string) (m : Metrics) : Metrics :=
  {| OrdersCreated := OrdersCreated m;
     PaymentsProcessed := PaymentsProcessed m;
     InventoryReservations := Inc (productID, status) (InventoryReservations m);
     CurrentStock := CurrentStock m |}.

Definition set_CurrentStock (productID name : string) (v : float) (m : Metrics) : Metrics :=
  {| OrdersCreated := OrdersCreated m;
     PaymentsProcessed := PaymentsProcessed m;
     InventoryReservations := InventoryReservations m;
     CurrentStock := <[(productID, name) := v]> (CurrentStock m) |}.
End observability.

(** ** [cmd/inventory-service/main.go]: the handlers of the inventory server

    A handler logs, calls the service and counts the outcome; what it
    logs is not part of the state and is left out, here and in the two
    servers below. *)

Module inventory_server.
Import observability.

Record GetProductStockRequest := { ProductId : string }.
Record GetProductStockResponse := { Product : inventorypb.Product }.

(** The service behind the server and the metrics of its process. *)
Definition state : Type := inventory.service * Metrics.

Definition ReserveStock (req : inventorypb.ReserveStockRequest.t) (st : state)
    : result inventorypb.ReserveStockResponse.t * state :=
  let productID := inventorypb.ReserveStockRequest.ProductId req in
  let '(r, s) :=
    inventory.ReserveStock st.1 productID
      (inventorypb.ReserveStockRequest.Quantity req)
      (inventorypb.ReserveStockRequest.OrderId req) in
  match r with
  | Err err => (Err err, (s, inc_InventoryReservations productID "error" st.2))
  | Ok response =>
      let status :=
        if inventorypb.ReserveStockResponse.Success response then "success" else "failed" in
      (Ok response, (s, inc_InventoryReservations productID status st.2))
  end.

Definition ReleaseStock (req : inventorypb.ReleaseStockRequest.t) (st : state)
    : result inventorypb.ReleaseStockResponse.t * state :=
  let '(r, s) :=
    inventory.ReleaseStock st.1
      (inventorypb.ReleaseStockRequest.ProductId req)
      (inventorypb.ReleaseStockRequest.Quantity req)
      (inventorypb.ReleaseStockRequest.OrderId req) in
  match r with
  | Err err => (Err err, (s, st.2))
  | Ok response => (Ok response, (s, st.2))
  end.

Definition GetProductStock (req : GetProductStockRequest) (st : state)
    : result GetProductStockResponse * state :=
  match inventory.GetProductStock st.1 (ProductId req) with
  | Err err => (Err err, st)
  | Ok product =>
      (Ok {| Product := product |},
       (st.1,
        set_CurrentStock (inventorypb.Id product) (inventorypb.Name product)
          (float64_of_int32 (inventorypb.StockQuantity product)) st.2))
  end.

(** The requests of a client, served one after the other. *)
Inductive Request :=
| ReqReserveStock (req : inventorypb.ReserveStockRequest.t)
| ReqReleaseStock (req : inventorypb.ReleaseStockRequest.t)
| ReqGetProductStock (req : GetProductStockRequest).

Definition serve (st : state) (req : Request) : state :=
  match req with
  | ReqReserveStock req => snd (ReserveStock req st)
  | ReqReleaseStock req => snd (ReleaseStock req st)
  | ReqGetProductStock req => snd (GetProductStock req st)
  end.

Definition serve_all (st : state) (reqs : list Request) : state := fold_left serve reqs st.

(** The ledger operations the requests ask for. *)
Definition ops_of (reqs : list Request) : list inventory.Op :=
  omap (λ req,
          match req with
          | ReqReserveStock r =>
              Some (inventory.Reserve (inventorypb.ReserveStockRequest.ProductId r)
                      (inventorypb.ReserveStockRequest.Quantity r)
                      (inventorypb.ReserveStockRequest.OrderId r))
          | ReqReleaseStock r =>
              Some (inventory.Release (inventorypb.ReleaseStockRequest.ProductId r)
                      (inventorypb.ReleaseStockRequest.Quantity r)
                      (inventorypb.ReleaseStockRequest.OrderId r))
          | ReqGetProductStock _ => None
          end) reqs.

(** How many of the requests are reservations of [p]. *)
Definition reserves (p : string) (req : Request) : bool :=
  match req with
  | ReqReserveStock r => bool_decide (inventorypb.ReserveStockRequest.ProductId r = p)
  | _ => false
  end.

Definition reservations_of (p : string) (reqs : list Request) : nat :=
  length (List.filter (reserves p) reqs).
End inventory_server.

(** ** [cmd/payment-service/main_enhanced.go]: the handler of the payment server *)

Module payment_server.
Import observability.

Section Server.
Context {W : Type} `{!Runtime W, !Rand W}.

Definition ProcessPayment (req : paymentpb.PaymentRequest) (st : Metrics * W)
    : result paymentpb.PaymentResponse * (Metrics * W) :=
  let '(r, w) := payment.ProcessPayment req st.2 in
  match r with
  | Err err => (Err err, (inc_PaymentsProcessed "error" st.1, w))
  | Ok response =>
      let status :=
        match paymentpb.Status response with
        | paymentpb.PaymentStatus_PAYMENT_STATUS_SUCCESS => "success"
        | _ => "failed"
        end in
      (Ok response, (inc_PaymentsProcessed status st.1, w))
  end.

Definition serve_all (st : Metrics * W) (reqs : list paymentpb.PaymentRequest)
    : Metrics * W :=
  fold_left (λ st req, snd (ProcessPayment req st)) reqs st.
End Server.
End payment_server.

(** ** [cmd/order-service/main_enhanced.go]: the handlers of the order server *)

Module order_server.
Import observability.

Record CreateOrderRequest := { CustomerId : string; Items : list orderpb.OrderItem }.
Record CreateOrderResponse := { CreateOrderResponse_Order : orderpb.Order }.
Record GetOrderRequest := { GetOrderRequest_OrderId : string }.
Record GetOrderResponse := { GetOrderResponse_Order : orderpb.Order }.
Record UpdateOrderStatusRequest := {
  UpdateOrderStatusRequest_OrderId : string;
  NewStatus : orderpb.OrderStatus
}.
Record UpdateOrderStatusResponse := { UpdateOrderStatusResponse_Order : orderpb.Order }.

Section Server.
Context {W : Type}
  `{!Runtime W, !inventorypb.InventoryServiceClient W, !paymentpb.PaymentServiceClient W}.

(** The service behind the server, the metrics of its process, and the
    world the service calls out to. *)
Definition state : Type := order.service * Metrics * W.

Definition CreateOrder (req : CreateOrderRequest) (st : state)
    : result CreateOrderResponse * state :=
  let '(s, m, w) := st in
  let '(r, s, w) := order.CreateOrder s (CustomerId req) (Items req) w in
  match r with
  | Err err => (Err err, (s, inc_OrdersCreated "failed" m, w))
  | Ok order =>
      (Ok {| CreateOrderResponse_Order := order |}, (s, inc_OrdersCreated "success" m, w))
  end.

Definition GetOrder (req : GetOrderRequest) (st : state)
    : result GetOrderResponse * state :=
  let '(s, m, w) := st in
  match order.GetOrder s (GetOrderRequest_OrderId req) with
  | Err err => (Err err, st)
  | Ok order => (Ok {| GetOrderResponse_Order := order |}, st)
  end.

Definition UpdateOrderStatus (req : UpdateOrderStatusRequest) (st : state)
    : result UpdateOrderStatusResponse * state :=
  let '(s, m, w) := st in
  let '(r, s, w) :=
    order.UpdateOrderStatus s (UpdateOrderStatusRequest_OrderId req) (NewStatus req) w in
  match r with
  | Err err => (Err err, (s, m, w))
  | Ok order => (Ok {| UpdateOrderStatusResponse_Order := order |}, (s, m, w))
  end.

Inductive Request :=
| ReqCreateOrder (req : CreateOrderRequest)
| ReqGetOrder (req : GetOrderRequest)
| ReqUpdateOrderStatus (req : UpdateOrderStatusRequest).

Definition serve (st : state) (req : Request) : state :=
  match req with
  | ReqCreateOrder req => snd (CreateOrder req st)
  | ReqGetOrder req => snd (GetOrder req st)
  | ReqUpdateOrderStatus req => snd (UpdateOrderStatus req st)
  end.

Definition serve_all (st : state) (reqs : list Request) : state := fold_left serve reqs st.
End Server.

Definition creates (req : Request) : bool :=
  match req with ReqCreateOrder _ => true | _ => false end.

(** How many of the requests ask for a new order. *)
Definition creations_of (reqs : list Request) : nat := length (List.filter creates reqs).
End order_server.

(** ** The characters of a message *)

(** The string holds no comma. *)
Fixpoint no_comma (s : string) : Prop :=
  match s with
  | EmptyString => True
  | String c s => c ≠ ","%char ∧ no_comma s
  end.

(** * Properties *)

(** ** Arithmetic of [int32] *)

Section Int32Facts.
Import Int32.

Lemma wrap_in_range (z : Z) : in_range (wrap z).
Proof.
  unfold in_range, wrap, min_int, max_int.
  pose proof (Z.mod_pos_bound (z + 2147483648) 4294967296). lia.
Qed.

Lemma wrap_id (z : Z) : in_range z → wrap z = z.
Proof.
  unfold in_range, wrap, min_int, max_int. intros Hz.
  rewrite Z.mod_small; lia.
Qed.

Lemma wrap_shift (z d : Z) : wrap (wrap z + d) = wrap (z + d).
Proof.
  unfold wrap.
  replace ((z + 2147483648) mod 4294967296 - 2147483648 + d + 2147483648)
    with ((z + 2147483648) mod 4294967296 + d) by lia.
  replace (z + d + 2147483648) with ((z + 2147483648) + d) by lia.
  by rewrite Zplus_mod_idemp_l.
Qed.

Lemma sub_exact (a q : Z) : in_range a → 0 < q → q ≤ a → sub a q = a - q.
Proof.
  unfold in_range, min_int, max_int. intros Ha Hq Hqa. apply wrap_id.
  unfold in_range, min_int, max_int. lia.
Qed.

Lemma add_exact (a q : Z) : in_range (a + q) → add a q = a + q.
Proof. apply wrap_id. Qed.
End Int32Facts.

(** ** The stock ledger *)

Section LedgerFacts.
Import inventorypb inventory.

Lemma ReserveStock_wf (s : service) (p : string) (q : Z) (o : string) :
  wf s → wf (snd (ReserveStock s p q o)).
Proof.
  unfold wf, ReserveStock. intros Hs.
  destruct (products s !! p) as [product|] eqn:Hp; [|done].
  destruct (StockQuantity product <? q); [done|]. cbn.
  apply map_Forall_insert_2; [apply wrap_in_range | done].
Qed.

Lemma ReleaseStock_wf (s : service) (p : string) (q : Z) (o : string) :
  wf s → wf (snd (ReleaseStock s p q o)).
Proof.
  unfold wf, ReleaseStock. intros Hs.
  destruct (products s !! p) as [product|] eqn:Hp; [|done]. cbn.
  apply map_Forall_insert_2; [apply wrap_in_range | done].
Qed.

Lemma step_wf (s : service) (op : Op) : wf s → wf (step s op).
Proof. destruct op; [apply ReserveStock_wf | apply ReleaseStock_wf]. Qed.

Lemma step_non_negative (s : service) (op : Op) :
  wf s → non_negative s → 0 < quantity_of op → fits s op = true →
  non_negative (step s op).
Proof.
  intros Hwf Hnn Hq Hfit. destruct op as [p q o|p q o]; cbn in *.
  - unfold ReserveStock.
    destruct (products s !! p) as [product|] eqn:Hp; [|done].
    destruct (Z.ltb_spec (StockQuantity product) q); [done|]. cbn.
    apply map_Forall_insert_2; [|done]. cbn.
    rewrite sub_exact; [lia| by apply (Hwf p) |done..].
  - unfold ReleaseStock.
    destruct (products s !! p) as [product|] eqn:Hp; [|done]. cbn.
    apply map_Forall_insert_2; [|done]. cbn.
    apply Z.leb_le in Hfit. pose proof (Hnn p _ Hp) as H0; cbn in H0.
    rewrite add_exact; [lia|]. unfold Int32.in_range, Int32.min_int. lia.
Qed.

Lemma run_cons (s : service) (op : Op) (ops : list Op) :
  run s (op :: ops) = run (step s op) ops.
Proof. reflexivity. Qed.

Lemma no_overflow_take (ops : list Op) : ∀ (s : service) (n : nat),
  no_overflow s ops = true → no_overflow s (take n ops) = true.
Proof.
  induction ops as [|op ops IH]; intros s [|n]; cbn; try done.
  intros [Hop Hrest]%andb_prop. rewrite Hop. by apply IH.
Qed.

Lemma run_non_negative (ops : list Op) : ∀ s : service,
  wf s → non_negative s → Forall (λ op, 0 < quantity_of op) ops →
  no_overflow s ops = true → non_negative (run s ops).
Proof.
  induction ops as [|op ops IH]; intros s Hwf Hnn Hpos Hfit; [done|].
  cbn in Hfit. apply andb_prop in Hfit as [Hop Hrest].
  inversion Hpos as [|? ? Hq Hpos']; subst. cbn.
  apply IH; [by apply step_wf | by apply step_non_negative | done..].
Qed.
End LedgerFacts.

(** ** The figures of a message *)

Section MessageFacts.

Lemma pretty_N_char_no_comma (x : N) : pretty_N_char x ≠ ","%char.
Proof. by repeat (done || destruct x as [|x] || destruct x as [x|x|]). Qed.

Lemma pretty_N_go_no_comma (x : N) : ∀ s, no_comma s → no_comma (pretty_N_go x s).
Proof.
  induction (N.lt_wf_0 x) as [x _ IH]. intros s Hs.
  destruct (decide (x = 0)%N) as [->|Hx].
  - by rewrite pretty_N_go_0.
  - rewrite pretty_N_go_step by lia. apply IH.
    + apply N.div_lt; lia.
    + split; [apply pretty_N_char_no_comma|done].
Qed.

Lemma fmt_d_no_comma (n : Z) : no_comma (fmt_d n).
Proof.
  unfold fmt_d, pretty, pretty_Z.
  assert (HN : ∀ x : N, no_comma (pretty x)).
  { intros x. unfold pretty, pretty_N. case_decide; [by cbn|].
    by apply pretty_N_go_no_comma. }
  destruct n as [|p|p]; [by cbn|apply HN|]. cbn. split; [done|apply HN].
Qed.

Lemma app_comma_inj (a a' r r' : string) :
  no_comma a → no_comma a' →
  a +:+ String "," r = a' +:+ String "," r' → a = a' ∧ r = r'.
Proof.
  revert a'. induction a as [|c a IH]; intros [|c' a']; cbn.
  - by intros _ _ [= ->].
  - intros _ [Hc _] [= <- _]. done.
  - intros [Hc _] _ [= -> _]. done.
  - intros [_ Ha] [_ Ha'] [= -> Heq]. destruct (IH a' Ha Ha' Heq) as [-> ->]. done.
Qed.

(** The message of a declined reservation determines both figures. *)
Lemma insufficient_stock_inj (a q a' q' : Z) :
  "Insufficient stock. Available: " +:+ fmt_d a +:+ ", Requested: " +:+ fmt_d q
  = "Insufficient stock. Available: " +:+ fmt_d a' +:+ ", Requested: " +:+ fmt_d q' →
  a = a' ∧ q = q'.
Proof.
  intros Heq. cbn in Heq. injection Heq as Heq.
  apply app_comma_inj in Heq as [Ha Hq]; [|apply fmt_d_no_comma..].
  injection Hq as Hq. split; by apply (inj pretty).
Qed.
End MessageFacts.

Module inventory_spec.
Import inventorypb inventory.

(** C3. [ReserveStock] never returns an error.  An absent product gives
    success=false with the not-found message and leaves the ledger as it
    was.  A product with less stock than requested gives success=false
    with a message that carries the available and the requested figure
    (they are the only two figures whose decimal numerals make up that
    message), and its counter reads what it read before.  Otherwise the
    counter of the product reads [available - quantity] afterwards (the
    [int32] subtraction, exact for every positive quantity), its other
    fields and the other products are as they were, and the result is
    success=true with reservedQuantity = quantity. *)
Theorem ReserveStock_outcomes (s : service) (productID : string) (quantity : Z)
    (orderID : string) :
  ∃ resp s',
    ReserveStock s productID quantity orderID = (Ok resp, s') ∧
    (products s !! productID = None →
       ReserveStockResponse.Success resp = false ∧
       ReserveStockResponse.Message resp = "Product not found: " +:+ productID ∧
       s' = s) ∧
    (∀ product, products s !! productID = Some product →
       StockQuantity product < quantity →
       ReserveStockResponse.Success resp = false ∧
       ReserveStockResponse.Message resp =
         "Insufficient stock. Available: " +:+ fmt_d (StockQuantity product)
         +:+ ", Requested: " +:+ fmt_d quantity ∧
       (∀ available requested : Z,
          ReserveStockResponse.Message resp =
            "Insufficient stock. Available: " +:+ fmt_d available
            +:+ ", Requested: " +:+ fmt_d requested →
          available = StockQuantity product ∧ requested = quantity) ∧
       s' = s ∧
       StockQuantity <$> products s' !! productID = Some (StockQuantity product)) ∧
    (∀ product, products s !! productID = Some product →
       quantity ≤ StockQuantity product →
       ReserveStockResponse.Success resp = true ∧
       ReserveStockResponse.Message resp = "Stock reserved successfully" ∧
       ReserveStockResponse.ReservedQuantity resp = quantity ∧
       products s' =
         <[productID := set_stock (Int32.sub (StockQuantity product) quantity) product]>
           (products s) ∧
       StockQuantity <$> products s' !! productID
       = Some (Int32.sub (StockQuantity product) quantity) ∧
       Id <$> products s' !! productID = Some (Id product) ∧
       Name <$> products s' !! productID = Some (Name product) ∧
       Price <$> products s' !! productID = Some (Price product) ∧
       (∀ p, p ≠ productID → products s' !! p = products s !! p) ∧
       (Int32.in_range (StockQuantity product) → 0 < quantity →
          Int32.sub (StockQuantity product) quantity = StockQuantity product - quantity ∧
          StockQuantity <$> products s' !! productID
          = Some (StockQuantity product - quantity))).
Proof.
  unfold ReserveStock.
  destruct (products s !! productID) as [product|] eqn:Hp.
  - destruct (Z.ltb_spec (StockQuantity product) quantity) as [Hlt|Hge];
      eexists _, _; (split; [reflexivity|]); (split; [done|]); split.
    + intros product' [= <-] _. cbn. split; [done|]. split; [done|].
      split; [|by rewrite Hp].
      intros available requested Heq. symmetry in Heq.
      by apply insufficient_stock_inj in Heq.
    + intros product' [= <-] Hle. lia.
    + intros product' [= <-] Hlt'. lia.
    + intros product' [= <-] _. cbn. rewrite !lookup_insert_eq. cbn.
      do 8 (split; [done|]). split.
      * intros p Hne. by rewrite lookup_insert_ne.
      * intros Hr Hq. rewrite sub_exact by done. done.
  - eexists _, _; (split; [reflexivity|]); repeat split; done.
Qed.

(** C3, witness: scenarios A and B of the specification on the sample
    catalogue, and an unknown product.  With 50 in stock, reserving 2
    succeeds and leaves 48; with 100 in stock, reserving 500 is declined,
    the message reads both figures and the counter stays at 100; an
    unknown product is declined and nothing changes. *)
Lemma ReserveStock_outcomes_witness :
  (∃ resp s',
     ReserveStock NewService "product-1" 2 "o1" = (Ok resp, s') ∧
     ReserveStockResponse.Success resp = true ∧
     ReserveStockResponse.ReservedQuantity resp = 2 ∧
     StockQuantity <$> products s' !! "product-1" = Some 48 ∧
     StockQuantity <$> products s' !! "product-2" = Some 100) ∧
  (∃ resp s',
     ReserveStock NewService "product-2" 500 "o2" = (Ok resp, s') ∧
     ReserveStockResponse.Success resp = false ∧
     ReserveStockResponse.Message resp
     = "Insufficient stock. Available: 100, Requested: 500" ∧
     StockQuantity <$> products s' !! "product-2" = Some 100) ∧
  (∃ resp s',
     ReserveStock NewService "product-9" 1 "o3" = (Ok resp, s') ∧
     ReserveStockResponse.Success resp = false ∧
     ReserveStockResponse.Message resp = "Product not found: product-9" ∧
     s' = NewService).
Proof.
  split; [|split].
  - destruct (ReserveStock_outcomes NewService "product-1" 2 "o1")
      as (resp & s' & Hcall & _ & _ & Hok).
    destruct (Hok {| Id := "product-1"; Name := "Laptop";
                     StockQuantity := 50; Price := 999.99%float |})
      as (Hsucc & _ & Hqty & _ & _ & _ & _ & _ & Hother & Hexact).
    { reflexivity. }
    { cbn. lia. }
    exists resp, s'. split; [exact Hcall|]. split; [exact Hsucc|]. split; [exact Hqty|].
    split.
    + apply Hexact; cbn; [|lia]. unfold Int32.in_range, Int32.min_int, Int32.max_int. lia.
    + rewrite Hother by discriminate. reflexivity.
  - destruct (ReserveStock_outcomes NewService "product-2" 500 "o2")
      as (resp & s' & Hcall & _ & Hshort & _).
    destruct (Hshort {| Id := "product-2"; Name := "Mouse";
                        StockQuantity := 100; Price := 29.99%float |})
      as (Hsucc & Hmsg & _ & _ & Hstock).
    { reflexivity. }
    { cbn. lia. }
    exists resp, s'. split; [exact Hcall|]. split; [exact Hsucc|].
    split; [|exact Hstock]. rewrite Hmsg. vm_compute. reflexivity.
  - destruct (ReserveStock_outcomes NewService "product-9" 1 "o3")
      as (resp & s' & Hcall & Habsent & _).
    destruct Habsent as (Hsucc & Hmsg & Hs'); [reflexivity|].
    exists resp, s'. split; [exact Hcall|]. split; [exact Hsucc|].
    split; [exact Hmsg|exact Hs'].
Defined.

(** C7, as amended.  [ReleaseStock] never returns an error.  On an existing
    product the result is success=true and the counter reads
    [available + quantity] afterwards, computed in [int32]: exactly that
    sum whenever the sum is an [int32], whatever the counter and the
    quantity are; the other fields of the product and the other products
    are as they were.  There is no clamping: a release that follows a
    reservation of [r] adds its own quantity [q], whatever [r] was, and a
    second release adds it again, each exactly as long as the result is
    an [int32].  On an absent product the result is success=false and the
    ledger is left as it was. *)
Theorem ReleaseStock_outcomes (s : service) (productID : string) (quantity : Z)
    (orderID : string) :
  ∃ resp s',
    ReleaseStock s productID quantity orderID = (Ok resp, s') ∧
    (∀ product, products s !! productID = Some product →
       ReleaseStockResponse.Success resp = true ∧
       products s' =
         <[productID := set_stock (Int32.add (StockQuantity product) quantity) product]>
           (products s) ∧
       StockQuantity <$> products s' !! productID
       = Some (Int32.add (StockQuantity product) quantity) ∧
       Id <$> products s' !! productID = Some (Id product) ∧
       Name <$> products s' !! productID = Some (Name product) ∧
       Price <$> products s' !! productID = Some (Price product) ∧
       (∀ p, p ≠ productID → products s' !! p = products s !! p) ∧
       (Int32.in_range (StockQuantity product + quantity) →
          Int32.add (StockQuantity product) quantity = StockQuantity product + quantity ∧
          StockQuantity <$> products s' !! productID
          = Some (StockQuantity product + quantity)) ∧
       (∀ r, r ≤ StockQuantity product →
          StockQuantity <$>
            products (run s [Reserve productID r orderID;
                             Release productID quantity orderID]) !! productID
          = Some (Int32.wrap (StockQuantity product - r + quantity)) ∧
          (Int32.in_range (StockQuantity product - r + quantity) →
             StockQuantity <$>
               products (run s [Reserve productID r orderID;
                                Release productID quantity orderID]) !! productID
             = Some (StockQuantity product - r + quantity))) ∧
       StockQuantity <$>
         products (run s [Release productID quantity orderID;
                          Release productID quantity orderID]) !! productID
       = Some (Int32.wrap (StockQuantity product + quantity + quantity)) ∧
       (Int32.in_range (StockQuantity product + quantity + quantity) →
          StockQuantity <$>
            products (run s [Release productID quantity orderID;
                             Release productID quantity orderID]) !! productID
          = Some (StockQuantity product + quantity + quantity))) ∧
    (products s !! productID = None →
       ReleaseStockResponse.Success resp = false ∧
       ReleaseStockResponse.Message resp = "Product not found: " +:+ productID ∧
       s' = s).
Proof.
  assert (Hreserve_release : ∀ product r,
    products s !! productID = Some product → r ≤ StockQuantity product →
    StockQuantity <$>
      products (run s [Reserve productID r orderID;
                       Release productID quantity orderID]) !! productID
    = Some (Int32.wrap (StockQuantity product - r + quantity))).
  { intros product r Hp Hr. unfold run; cbn. unfold ReserveStock, ReleaseStock.
    rewrite Hp. destruct (Z.ltb_spec (StockQuantity product) r) as [|_]; [lia|]. cbn.
    rewrite lookup_insert_eq. cbn. rewrite lookup_insert_eq. cbn.
    unfold Int32.add, Int32.sub. by rewrite wrap_shift. }
  assert (Hrelease_twice : ∀ product,
    products s !! productID = Some product →
    StockQuantity <$>
      products (run s [Release productID quantity orderID;
                       Release productID quantity orderID]) !! productID
    = Some (Int32.wrap (StockQuantity product + quantity + quantity))).
  { intros product Hp. unfold run; cbn. unfold ReleaseStock. rewrite Hp. cbn.
    rewrite lookup_insert_eq. cbn. rewrite lookup_insert_eq. cbn.
    unfold Int32.add. by rewrite wrap_shift. }
  unfold ReleaseStock.
  destruct (products s !! productID) as [product|] eqn:Hp.
  - eexists _, _. split; [reflexivity|]. split; [|done].
    intros product' [= <-]. cbn [products]. rewrite !lookup_insert_eq.
    split; [done|]. split; [done|]. split; [done|]. split; [done|].
    split; [done|]. split; [done|].
    split; [|split; [|split; [|split]]].
    + intros p Hne. by rewrite lookup_insert_ne.
    + intros Hr. by rewrite add_exact.
    + intros r Hr. split; [by apply Hreserve_release|].
      intros Hin. rewrite (Hreserve_release product r) by done. by rewrite wrap_id.
    + by apply Hrelease_twice.
    + intros Hin. rewrite (Hrelease_twice product) by done. by rewrite wrap_id.
  - eexists _, _. split; [reflexivity|]. split; [done|]. done.
Qed.

(** C7, witness: on the sample catalogue, releasing 5 of product-1 (50 in
    stock) succeeds and leaves 55 with nothing reserved before; after a
    reservation of 2 a release of 5 leaves 53, two releases of 5 leave
    60, and product-2 stays at 100. *)
Lemma ReleaseStock_outcomes_witness :
  ∃ resp s',
    ReleaseStock NewService "product-1" 5 "o1" = (Ok resp, s') ∧
    ReleaseStockResponse.Success resp = true ∧
    StockQuantity <$> products s' !! "product-1" = Some 55 ∧
    StockQuantity <$> products s' !! "product-2" = Some 100 ∧
    StockQuantity <$>
      products (run NewService [Reserve "product-1" 2 "o1"; Release "product-1" 5 "o1"])
        !! "product-1" = Some 53 ∧
    StockQuantity <$>
      products (run NewService [Release "product-1" 5 "o1"; Release "product-1" 5 "o1"])
        !! "product-1" = Some 60.
Proof.
  destruct (ReleaseStock_outcomes NewService "product-1" 5 "o1")
    as (resp & s' & Hcall & Hfound & _).
  destruct (Hfound {| Id := "product-1"; Name := "Laptop";
                      StockQuantity := 50; Price := 999.99%float |})
    as (Hsucc & _ & _ & _ & _ & _ & Hother & Hexact & Hafter & _ & Htwice).
  { reflexivity. }
  assert (Hrange : ∀ n, 0 ≤ n ≤ 100 → Int32.in_range n).
  { intros n Hn. unfold Int32.in_range, Int32.min_int, Int32.max_int. lia. }
  exists resp, s'. split; [exact Hcall|]. split; [exact Hsucc|].
  split; [|split; [|split]].
  - apply Hexact. apply Hrange. cbn. lia.
  - rewrite Hother by discriminate. reflexivity.
  - apply (Hafter 2); [cbn; lia|]. apply Hrange. cbn. lia.
  - apply Htwice. apply Hrange. cbn. lia.
Defined.

(** C7, where the claim fails: releasing the largest [int32] of product-1
    (50 in stock) succeeds, and the counter is not 50 + q and has not
    grown: the sum wraps to a negative number. *)
Lemma ReleaseStock_max_int_wraps :
  let q := 2147483647 in
  let call := ReleaseStock NewService "product-1" q "o1" in
  0 < q ∧
  StockQuantity <$> products NewService !! "product-1" = Some 50 ∧
  call.1 = Ok {| ReleaseStockResponse.Success := true;
                 ReleaseStockResponse.Message := "Stock released successfully" |} ∧
  StockQuantity <$> products call.2 !! "product-1" = Some (-2147483599) ∧
  -2147483599 ≠ 50 + q ∧
  ¬ 50 ≤ -2147483599.
Proof. vm_compute. repeat split; done. Qed.

(** C10, as amended.  The quantity [> 0] precondition of [ReserveStock] is
    not enforced.  For an existing product with a non-negative counter and
    a quantity [q ≤ 0], the call returns success=true with
    reservedQuantity = q and sets the counter to [available - q], computed
    in [int32].  As long as [available - q] does not exceed the largest
    [int32] that value is exact, so the counter does not go down, and with
    a negative [q] it goes up. *)
Theorem ReserveStock_non_positive (s : service) (productID : string) (q : Z)
    (orderID : string) (product : Product) :
  products s !! productID = Some product →
  0 ≤ StockQuantity product →
  q ≤ 0 →
  ∃ resp s',
    ReserveStock s productID q orderID = (Ok resp, s') ∧
    ReserveStockResponse.Success resp = true ∧
    ReserveStockResponse.ReservedQuantity resp = q ∧
    products s' =
      <[productID := set_stock (Int32.sub (StockQuantity product) q) product]> (products s) ∧
    (StockQuantity product - q ≤ Int32.max_int →
       Int32.sub (StockQuantity product) q = StockQuantity product - q ∧
       StockQuantity product ≤ Int32.sub (StockQuantity product) q ∧
       (q < 0 → StockQuantity product < Int32.sub (StockQuantity product) q)).
Proof.
  intros Hp Ha Hq. unfold ReserveStock. rewrite Hp.
  destruct (Z.ltb_spec (StockQuantity product) q) as [|_]; [lia|].
  eexists _, _. split; [reflexivity|]. repeat split; cbn.
  all: intros; unfold Int32.sub; rewrite wrap_id; try lia.
  all: unfold Int32.in_range, Int32.min_int; unfold Int32.max_int in *; lia.
Qed.

(** C10, witness: reserving -3 of product-1 (50 in stock) succeeds and
    leaves 53. *)
Lemma ReserveStock_non_positive_witness :
  ∃ resp s',
    ReserveStock NewService "product-1" (-3) "o1" = (Ok resp, s') ∧
    ReserveStockResponse.Success resp = true ∧
    StockQuantity <$> products s' !! "product-1" = Some 53.
Proof.
  destruct (ReserveStock_non_positive NewService "product-1" (-3) "o1"
              {| Id := "product-1"; Name := "Laptop";
                 StockQuantity := 50; Price := 999.99%float |})
    as (resp & s' & Hcall & Hok & _ & Hs' & _).
  - reflexivity.
  - cbn; lia.
  - lia.
  - exists resp, s'. split; [exact Hcall|]. split; [exact Hok|].
    rewrite Hs'. rewrite lookup_insert_eq. reflexivity.
Defined.

(** C10, where the claim fails: with the most negative quantity the
    reservation of product-1 (50 in stock) succeeds, and the counter is
    neither 50 - q nor larger than before: it wraps to a negative number. *)
Lemma ReserveStock_min_int_wraps :
  let q := -2147483648 in
  let call := ReserveStock NewService "product-1" q "o1" in
  q ≤ 0 ∧
  StockQuantity <$> products NewService !! "product-1" = Some 50 ∧
  call.1 = Ok {| ReserveStockResponse.Success := true;
                 ReserveStockResponse.Message := "Stock reserved successfully";
                 ReserveStockResponse.ReservedQuantity := q |} ∧
  StockQuantity <$> products call.2 !! "product-1" = Some (-2147483598) ∧
  -2147483598 ≠ 50 - q ∧
  ¬ 50 < -2147483598.
Proof. vm_compute. repeat split; done. Qed.

(** C4, as amended.  Along every sequence of reserve and release operations
    with positive quantities in which no release lifts a counter above the
    largest [int32], every counter stays non-negative after every
    operation, starting from non-negative [int32] counters. *)
Theorem ledger_non_negative (s : service) (ops : list Op) (n : nat) :
  wf s →
  non_negative s →
  Forall (λ op, 0 < quantity_of op) ops →
  no_overflow s ops = true →
  non_negative (run s (take n ops)).
Proof.
  intros Hwf Hnn Hpos Hfit.
  apply run_non_negative; [done..| |].
  - by apply Forall_take.
  - by apply no_overflow_take.
Qed.
End inventory_spec.

(** ** The payment gateway *)

Module payment_spec.
Import paymentpb.

(** C9. Every call of [ProcessPayment] returns a response and no error.
    The response carries the status SUCCESS or the status FAILED, the
    identifier drawn for the call and the transaction reference made from
    the clock; a declined payment is the response with status FAILED and
    the message of the decline. *)
Theorem ProcessPayment_outcome {W : Type} `{!Runtime W, !Rand W}
    (req : PaymentRequest) (w : W) :
  ∃ resp w',
    payment.ProcessPayment req w = (Ok resp, w') ∧
    (Status resp = PaymentStatus_PAYMENT_STATUS_SUCCESS ∧
       Message resp = "Payment processed successfully"
     ∨ Status resp = PaymentStatus_PAYMENT_STATUS_FAILED ∧
       Message resp = "Payment declined by bank") ∧
    PaymentId resp = fst (uuid_New w) ∧
    TransactionId resp = "txn_" +:+ fmt_d (time.Unix (fst (time_Now (snd (uuid_New w))))).
Proof.
  unfold payment.ProcessPayment.
  destruct (uuid_New w) as [paymentID w1]. cbn.
  destruct (time_Now w1) as [now w2]. cbn.
  destruct (rand_Intn 500 w2) as [n w3].
  destruct (rand_Float32 (time_Sleep (n + 100) w3)) as [u w4].
  destruct (PrimFloat.ltb u payment.float32_0_9);
    eexists _, _; (split; [reflexivity|]); cbn; auto.
Qed.
End payment_spec.

(** ** The order table *)

Section Float64Facts.



End Float64Facts.

Section OrderFacts.
Import orderpb order.



Context {W : Type}
  `{!inventorypb.InventoryServiceClient W, !paymentpb.PaymentServiceClient W, !Runtime W}.

Lemma newOrder_fields (customerID : string) (items : list OrderItem) (w : W) :
  let o := fst (newOrder customerID items w) in
  Id o = fst (uuid_New w) ∧ CustomerId o = customerID ∧ Items o = items ∧
  TotalAmount o = totalAmount items ∧ Status o = OrderStatus_ORDER_STATUS_PENDING.
Proof.
  unfold newOrder. destruct (uuid_New w) as [orderID w1].
  destruct (time_Now w1) as [t1 w2]. destruct (time_Now w2) as [t2 w3]. done.
Qed.

End OrderFacts.

Module order_spec.
Import orderpb order.

(** C8. For a stored order, [UpdateOrderStatus] overwrites the status with
    the new one, whatever the old and the new status are, sets [updatedAt]
    to the time of the call and changes nothing else of the order nor any
    other order; the updated order is returned and is what the table holds.
    For an unknown identifier it returns the not-found error and the table
    is left as it was. *)
Theorem UpdateOrderStatus_outcomes {W : Type} `{!Runtime W}
    (s : service) (orderID : string) (status : OrderStatus) (w : W) :
  (∀ o, orders s !! orderID = Some o →
     ∃ o' s',
       UpdateOrderStatus s orderID status w = (Ok o', s', snd (time_Now w)) ∧
       Status o' = status ∧
       UpdatedAt o' = time.RFC3339 (fst (time_Now w)) ∧
       (Id o', CustomerId o', Items o', TotalAmount o', CreatedAt o')
       = (Id o, CustomerId o, Items o, TotalAmount o, CreatedAt o) ∧
       orders s' !! orderID = Some o' ∧
       (∀ other, other ≠ orderID → orders s' !! other = orders s !! other)) ∧
  (orders s !! orderID = None →
     UpdateOrderStatus s orderID status w = (Err ("order not found: " +:+ orderID), s, w)).
Proof.
  unfold UpdateOrderStatus. split.
  - intros o ->. destruct (time_Now w) as [now w']. cbn.
    eexists _, _. split; [reflexivity|]. cbn. repeat split.
    + apply lookup_insert_eq.
    + intros other Hne. by apply lookup_insert_ne.
  - by intros ->.
Qed.

End order_spec.

(** ** The deployment: orchestrator, ledger and gateway together *)

Section SystemFacts.
Import orderpb order system.

Lemma shifted_0 (p : inventorypb.Product) :
  Int32.in_range (inventorypb.StockQuantity p) → shifted 0 p = p.
Proof.
  intros Hp. destruct p as [i n a pr]. unfold shifted, inventory.set_stock. cbn in *.
  by rewrite Z.add_0_r, wrap_id.
Qed.

Lemma shifted_shifted (d e : Z) (p : inventorypb.Product) :
  shifted e (shifted d p) = shifted (d + e) p.
Proof.
  unfold shifted, inventory.set_stock. cbn. f_equal.
  rewrite wrap_shift. f_equal. lia.
Qed.

Lemma shifted_back (d : Z) (p : inventorypb.Product) :
  Int32.in_range (inventorypb.StockQuantity p) → shifted d (shifted (- d) p) = p.
Proof.
  intros Hp. rewrite shifted_shifted. replace (- d + d) with 0 by lia.
  by apply shifted_0.
Qed.

Lemma demand_cons (p : string) (item : OrderItem) (items : list OrderItem) :
  demand p (item :: items) =
  if decide (ProductId item = p) then Quantity item + demand p items else demand p items.
Proof. reflexivity. Qed.

(** One reservation call, as the orchestrator sees it and as the world
    records it. *)
Lemma ReserveStock_call (orderID : string) (item : OrderItem) (w : World) :
  ∃ r w', inventorypb.ReserveStock (reserveReq orderID item) w = (r, w') ∧
    wire w' = wire w ++ [reserveRpc orderID item] ∧
    match r with
    | Ok resp =>
        ledger w' = inventory.step (ledger w) (reserveOp orderID item) ∧
        if inventorypb.ReserveStockResponse.Success resp then
          ∃ product,
            inventory.products (ledger w) !! ProductId item = Some product ∧
            inventory.products (ledger w') =
              <[ProductId item := shifted (- Quantity item) product]>
                (inventory.products (ledger w))
        else ledger w' = ledger w
    | Err _ => ledger w' = ledger w
    end.
Proof.
  cbn. unfold dial. destruct (pop false (faults w)) as [[|] rest]; cbn.
  - eexists _, _. by split.
  - unfold inventory.ReserveStock.
    destruct (inventory.products (ledger w) !! ProductId item) as [product|] eqn:Hp; cbn.
    + destruct (inventorypb.StockQuantity product <? Quantity item); cbn.
      * eexists _, _. split; [reflexivity|]. cbn. split; [done|].
        by destruct (ledger w).
      * eexists _, _. split; [reflexivity|]. cbn. split; [done|]. split; [done|].
        by exists product.
    + eexists _, _. split; [reflexivity|]. cbn. split; [done|]. by destruct (ledger w).
Qed.

Lemma reserveItems_None (orderID : string) (items : list OrderItem) : ∀ w w' : World,
  reserveItems orderID items w = (None, w') →
  inventory.wf (ledger w) →
  wire w' = wire w ++ map (reserveRpc orderID) items ∧
  ledger w' = inventory.run (ledger w) (map (reserveOp orderID) items) ∧
  inventory.wf (ledger w') ∧
  ∀ p, inventory.products (ledger w') !! p
       = shifted (- demand p items) <$> inventory.products (ledger w) !! p.
Proof.
  induction items as [|item items IH]; intros w w'.
  - intros [= <-] Hwf. split; [by rewrite app_nil_r|]. do 2 (split; [done|]).
    intros p. destruct (inventory.products (ledger w) !! p) as [product|] eqn:Hp; [|done].
    cbn. f_equal. symmetry. apply shifted_0. by apply (Hwf p).
  - cbn [reserveItems].
    destruct (ReserveStock_call orderID item w) as (r & w1 & -> & Hwire & Hledger).
    destruct r as [resp|e]; [|done]. destruct Hledger as [Hstep Hledger].
    destruct (inventorypb.ReserveStockResponse.Success resp); [|done].
    destruct Hledger as (product & Hp & Hprods). intros Hrest Hwf.
    assert (Hwf1 : inventory.wf (ledger w1)).
    { unfold inventory.wf. rewrite Hprods.
      apply map_Forall_insert_2; [apply wrap_in_range | done]. }
    destruct (IH _ _ Hrest Hwf1) as (Hwire' & Hrun & Hwf' & Hlook).
    split; [by rewrite Hwire', Hwire, <- app_assoc|].
    split; [by rewrite Hrun, Hstep|]. split; [done|].
    intros p. rewrite Hlook, Hprods, demand_cons.
    destruct (decide (ProductId item = p)) as [<-|Hne].
    + rewrite lookup_insert_eq, Hp. cbn. rewrite shifted_shifted.
      do 2 f_equal. lia.
    + by rewrite lookup_insert_ne.
Qed.

(** A reservation loop that stops at the line item of index [k] has sent
    the reservation requests of the items up to that one and nothing
    else, and leaves the ledger with the reservations before it applied. *)
Lemma reserveItems_Some (orderID : string) (items : list OrderItem) : ∀ (w w' : World) err,
  reserveItems orderID items w = (Some err, w') →
  ∃ k, (k < length items)%nat ∧
       wire w' = wire w ++ map (reserveRpc orderID) (take (S k) items) ∧
       ledger w' = inventory.run (ledger w) (map (reserveOp orderID) (take k items)).
Proof.
  induction items as [|item items IH]; intros w w' err; [done|].
  cbn [reserveItems].
  destruct (ReserveStock_call orderID item w) as (r & w1 & -> & Hwire & Hledger).
  destruct r as [resp|e].
  - destruct Hledger as [Hstep Hledger].
    destruct (inventorypb.ReserveStockResponse.Success resp).
    + intros (k & Hk & Hw & Hl)%IH. exists (S k). split; [cbn; lia|].
      split; [by rewrite Hw, Hwire, <- app_assoc|]. by rewrite Hl, Hstep.
    + intros [= _ <-]. exists 0%nat. split; [cbn; lia|]. cbn. by rewrite ?take_0.
  - intros [= _ <-]. exists 0%nat. split; [cbn; lia|]. cbn. by rewrite ?take_0.
Qed.

Lemma step_Release_lookup (l : inventory.service) (productID : string) (q : Z)
    (orderID p : string) :
  inventory.products (inventory.step l (inventory.Release productID q orderID)) !! p =
  if decide (productID = p)
  then shifted q <$> inventory.products l !! p
  else inventory.products l !! p.
Proof.
  cbn. unfold inventory.ReleaseStock.
  destruct (inventory.products l !! productID) as [product|] eqn:Hp; cbn;
    destruct (decide (productID = p)) as [<-|Hne];
    rewrite ?lookup_insert_eq, ?Hp; try done.
  by rewrite lookup_insert_ne.
Qed.

(** What serving the release of every line item does to a ledger. *)
Lemma run_release_lookup (orderID : string) (items : list OrderItem) :
  ∀ l : inventory.service,
  inventory.wf l →
  ∀ p, inventory.products (inventory.run l (map (releaseOp orderID) items)) !! p
       = shifted (demand p items) <$> inventory.products l !! p.
Proof.
  induction items as [|item items IH]; intros l Hwf p.
  - cbn. destruct (inventory.products l !! p) as [product|] eqn:Hp; [|done].
    cbn. f_equal. symmetry. apply shifted_0. by apply (Hwf p).
  - cbn [map]. rewrite run_cons, IH; [|by apply step_wf].
    unfold releaseOp at 1. rewrite step_Release_lookup, demand_cons.
    destruct (decide (ProductId item = p)) as [_|_]; [|done].
    destruct (inventory.products l !! p) as [product|]; [|done].
    cbn. by rewrite shifted_shifted.
Qed.

Lemma ReleaseStock_call (orderID : string) (item : OrderItem) (w : World) :
  ∃ r w', inventorypb.ReleaseStock (releaseReq orderID item) w = (r, w') ∧
    wire w' = wire w ++ [releaseRpc orderID item] ∧
    faults w' = tail (faults w) ∧
    (head (faults w) ≠ Some true →
     ledger w' = inventory.step (ledger w) (releaseOp orderID item)).
Proof.
  cbn. unfold dial. destruct (faults w) as [|[|] rest]; cbn.
  all: try (eexists _, _; split; [reflexivity|]; cbn; do 2 (split; [done|]); done).
  all: unfold inventory.ReleaseStock;
    destruct (inventory.products (ledger w) !! ProductId item) as [product|] eqn:Hp; cbn;
    eexists _, _; (split; [reflexivity|]); cbn; do 2 (split; [done|]); intros _;
    try done; by destruct (ledger w).
Qed.

Lemma releaseStockForOrder_wire (orderID : string) (items : list OrderItem) : ∀ w : World,
  wire (releaseStockForOrder orderID items w) = wire w ++ map (releaseRpc orderID) items.
Proof.
  induction items as [|item items IH]; intros w; [by rewrite app_nil_r|].
  cbn [releaseStockForOrder].
  destruct (ReleaseStock_call orderID item w) as (r & w1 & -> & Hwire & _).
  by rewrite IH, Hwire, <- app_assoc.
Qed.

Lemma healthy_step (n : nat) (w w' : World) :
  healthy (S n) w → faults w' = tail (faults w) →
  head (faults w) ≠ Some true ∧ healthy n w'.
Proof.
  unfold healthy. intros Hh ->. destruct (faults w) as [|f rest]; cbn in *.
  - split; [done|]. by rewrite take_nil.
  - inversion Hh; subst. split; [done|done].
Qed.

(** When no release call fails in transport, the compensation loop does
    to the ledger what serving its releases one after the other does. *)
Lemma releaseStockForOrder_healthy (orderID : string) (items : list OrderItem) :
  ∀ w : World,
  healthy (length items) w →
  ledger (releaseStockForOrder orderID items w)
  = inventory.run (ledger w) (map (releaseOp orderID) items).
Proof.
  induction items as [|item items IH]; intros w Hh; [done|].
  cbn [releaseStockForOrder].
  destruct (ReleaseStock_call orderID item w) as (r & w1 & -> & _ & Hfaults & Hstep).
  destruct (healthy_step _ _ _ Hh Hfaults) as [Hup Hh1].
  by rewrite (IH w1 Hh1), (Hstep Hup).
Qed.

Lemma ProcessPayment_call (req : paymentpb.PaymentRequest) (w : World) :
  ledger (snd (paymentpb.ProcessPayment req w)) = ledger w ∧
  wire (snd (paymentpb.ProcessPayment req w)) = wire w ++ [RpcProcessPayment req].
Proof.
  cbn. unfold dial. destruct (pop false (faults w)) as [[|] rest]; cbn; [done|].
  unfold payment.ProcessPayment. cbn.
  destruct (pop "" (uuids w)) as [id ids]. cbn.
  destruct (pop epoch (clock w)) as [t ts]. cbn.
  destruct (pop 0 (ints w)) as [n ns]. cbn.
  destruct (pop 0%float (floats w)) as [u us]. cbn.
  by destruct (PrimFloat.ltb u payment.float32_0_9).
Qed.

Lemma time_Now_call (w : World) :
  ledger (snd (time_Now w)) = ledger w ∧ wire (snd (time_Now w)) = wire w.
Proof. cbn. by destruct (pop epoch (clock w)). Qed.

Lemma newOrder_call (customerID : string) (items : list OrderItem) (w : World) :
  ledger (snd (newOrder customerID items w)) = ledger w ∧
  wire (snd (newOrder customerID items w)) = wire w.
Proof.
  unfold newOrder. cbn.
  destruct (pop "" (uuids w)) as [id ids]. cbn.
  destruct (pop epoch (clock w)) as [t ts]. cbn.
  by destruct (pop epoch ts) as [t' ts'].
Qed.

Lemma ledger_ext (l l' : inventory.service) :
  (∀ p, inventory.products l !! p = inventory.products l' !! p) → l = l'.
Proof. destruct l, l'. cbn. intros H. f_equal. by apply map_eq. Qed.
End SystemFacts.

Module system_spec.
Import orderpb order system.

(** What [CreateOrder] does when the reservation loop stops early (lines
    76-84): the error of the loop is returned and the table is left as it
    was; the requests sent are the reservation requests up to the failing
    one, no release request among them, and the ledger keeps the
    reservations made before the failing one. *)
Lemma CreateOrder_reservation_failure (s : service) (customerID : string)
    (items : list OrderItem) (w w0 w1 : World) (o0 : Order) (err : string) :
  newOrder customerID items w = (o0, w0) →
  reserveItems (Id o0) items w0 = (Some err, w1) →
  system.CreateOrder s customerID items w = (Err err, s, w1) ∧
  ∃ k, (k < length items)%nat ∧
       wire w1 = wire w ++ map (reserveRpc (Id o0)) (take (S k) items) ∧
       ledger w1 = inventory.run (ledger w) (map (reserveOp (Id o0)) (take k items)).
Proof.
  intros Hnew Hres. unfold system.CreateOrder, order.CreateOrder. rewrite Hnew, Hres.
  split; [done|].
  destruct (reserveItems_Some _ _ _ _ _ Hres) as (k & Hk & Hwire & Hledger).
  pose proof (newOrder_call customerID items w) as [Hl Hw]. rewrite Hnew in Hl, Hw.
  cbn in Hl, Hw. exists k. split; [done|]. by rewrite Hwire, Hledger, Hw, Hl.
Qed.

(** C2, as amended.  When every reservation succeeded and the charge then
    returns an error or a status other than SUCCESS, [CreateOrder] sends
    one release request for every line item, with the product, quantity
    and order identifier of its reservation, returns an error and leaves
    the order table as it was.  Served by the ledger, these releases undo
    the reservations counter by counter; so when no release call fails in
    transport, the ledger after the call is the ledger before it. *)
Theorem CreateOrder_compensates (s : service) (customerID : string)
    (items : list OrderItem) (w w0 w1 w2 : World) (o0 : Order)
    (r : result paymentpb.PaymentResponse) :
  inventory.wf (ledger w) →
  newOrder customerID items w = (o0, w0) →
  reserveItems (Id o0) items w0 = (None, w1) →
  paymentpb.ProcessPayment (paymentReq o0) w1 = (r, w2) →
  charge_failed r →
  ∃ err w3,
    system.CreateOrder s customerID items w = (Err err, s, w3) ∧
    wire w3 = wire w ++ map (reserveRpc (Id o0)) items
                     ++ [RpcProcessPayment (paymentReq o0)]
                     ++ map (releaseRpc (Id o0)) items ∧
    ledger w2 = inventory.run (ledger w) (map (reserveOp (Id o0)) items) ∧
    inventory.run (ledger w2) (map (releaseOp (Id o0)) items) = ledger w ∧
    (healthy (length items) w2 → ledger w3 = ledger w).
Proof.
  intros Hwf Hnew Hres Hpay Hfail.
  pose proof (newOrder_call customerID items w) as [Hl0 Hw0]. rewrite Hnew in Hl0, Hw0.
  cbn in Hl0, Hw0. rewrite <- Hl0 in Hwf.
  destruct (reserveItems_None _ _ _ _ Hres Hwf) as (Hw1 & Hrun1 & Hwf1 & Hlook1).
  pose proof (ProcessPayment_call (paymentReq o0) w1) as [Hl2 Hw2].
  rewrite Hpay in Hl2, Hw2. cbn in Hl2, Hw2.
  assert (Hwire : wire (releaseStockForOrder (Id o0) items w2)
                  = wire w ++ map (reserveRpc (Id o0)) items
                      ++ [RpcProcessPayment (paymentReq o0)]
                      ++ map (releaseRpc (Id o0)) items).
  { rewrite releaseStockForOrder_wire, Hw2, Hw1, Hw0. by rewrite <- !app_assoc. }
  assert (Hundo : inventory.run (ledger w2) (map (releaseOp (Id o0)) items) = ledger w).
  { apply ledger_ext. intros p.
    rewrite run_release_lookup; [|by rewrite Hl2].
    rewrite Hl2, Hlook1, Hl0.
    destruct (inventory.products (ledger w) !! p) as [product|] eqn:Hp; [|done].
    cbn. f_equal. apply shifted_back. rewrite Hl0 in Hwf. by apply (Hwf p). }
  assert (Hledger : healthy (length items) w2 →
                    ledger (releaseStockForOrder (Id o0) items w2) = ledger w).
  { intros Hh. by rewrite releaseStockForOrder_healthy. }
  assert (Hreserved : ledger w2 = inventory.run (ledger w) (map (reserveOp (Id o0)) items))
    by (by rewrite Hl2, Hrun1, Hl0).
  unfold system.CreateOrder, order.CreateOrder. rewrite Hnew, Hres, Hpay.
  destruct r as [resp|e]; cbn in Hfail.
  - destruct (paymentpb.Status resp); [done| |]; cbn; by eexists _, _.
  - by eexists _, _.
Qed.

(** C6. When every reservation succeeded and the charge returns the status
    SUCCESS, [CreateOrder] returns the order with the status PROCESSING and
    [updatedAt] set to the time read after the charge, and stores that
    order in the table under its identifier.  No release request is sent,
    and the ledger is left with every reservation applied: each counter
    stays lowered by what the line items asked of it. *)
Theorem CreateOrder_succeeds (s : service) (customerID : string)
    (items : list OrderItem) (w w0 w1 w2 : World) (o0 : Order)
    (resp : paymentpb.PaymentResponse) :
  inventory.wf (ledger w) →
  newOrder customerID items w = (o0, w0) →
  reserveItems (Id o0) items w0 = (None, w1) →
  paymentpb.ProcessPayment (paymentReq o0) w1 = (Ok resp, w2) →
  paymentpb.Status resp = paymentpb.PaymentStatus_PAYMENT_STATUS_SUCCESS →
  ∃ o s' w3,
    system.CreateOrder s customerID items w = (Ok o, s', w3) ∧
    Status o = OrderStatus_ORDER_STATUS_PROCESSING ∧
    UpdatedAt o = time.RFC3339 (fst (time_Now w2)) ∧
    (Id o, CustomerId o, Items o, TotalAmount o, CreatedAt o)
    = (Id o0, customerID, items, totalAmount items, CreatedAt o0) ∧
    orders s' = <[Id o := o]> (orders s) ∧
    GetOrder s' (Id o) = Ok o ∧
    wire w3 = wire w ++ map (reserveRpc (Id o0)) items
                     ++ [RpcProcessPayment (paymentReq o0)] ∧
    ledger w3 = inventory.run (ledger w) (map (reserveOp (Id o0)) items) ∧
    ∀ p, inventory.products (ledger w3) !! p
         = shifted (- demand p items) <$> inventory.products (ledger w) !! p.
Proof.
  intros Hwf Hnew Hres Hpay Hst.
  pose proof (newOrder_call customerID items w) as [Hl0 Hw0]. rewrite Hnew in Hl0, Hw0.
  cbn in Hl0, Hw0. rewrite <- Hl0 in Hwf.
  pose proof (newOrder_fields customerID items w) as Hf. rewrite Hnew in Hf.
  cbn in Hf. destruct Hf as (_ & Hcust & Hitems & Htotal & _).
  destruct (reserveItems_None _ _ _ _ Hres Hwf) as (Hw1 & Hrun1 & Hwf1 & Hlook1).
  pose proof (ProcessPayment_call (paymentReq o0) w1) as [Hl2 Hw2].
  rewrite Hpay in Hl2, Hw2. cbn in Hl2, Hw2.
  pose proof (time_Now_call w2) as [Hl3 Hw3].
  unfold system.CreateOrder, order.CreateOrder.
  rewrite Hnew, Hres, Hpay, Hst. cbn [is_success negb].
  destruct (time_Now w2) as [now w3]. cbn in Hl3, Hw3 |- *.
  eexists _, _, _. split; [reflexivity|]. cbn.
  rewrite Hcust, Hitems, Htotal. repeat split.
  - unfold GetOrder. cbn. by rewrite lookup_insert_eq.
  - rewrite Hw3, Hw2, Hw1, Hw0. by rewrite <- !app_assoc.
  - by rewrite Hl3, Hl2, Hrun1, Hl0.
  - intros p. by rewrite Hl3, Hl2, Hlook1, Hl0.
Qed.
End system_spec.

(** ** The scenarios, run *)

Section ScenarioFacts.
Import inventorypb inventory.

Lemma NewService_wf : wf NewService.
Proof.
  unfold wf, NewService; cbn.
  repeat (apply map_Forall_insert_2; [cbv; split; discriminate|]).
  apply map_Forall_empty.
Qed.

Lemma NewService_non_negative : non_negative NewService.
Proof.
  unfold non_negative, NewService; cbn.
  repeat (apply map_Forall_insert_2; [cbv; discriminate|]).
  apply map_Forall_empty.
Qed.
End ScenarioFacts.

Module scenario_spec.
Import orderpb order system.

(** C3, scenarios A and B of the specification: with 50 in stock, reserving
    2 succeeds and leaves 48; where 100 are in stock, reserving 500 is
    declined with both figures in the message and the counter stays. *)
Lemma ReserveStock_scenarios :
  let a := inventory.ReserveStock inventory.NewService "product-1" 2 "o1" in
  let b := inventory.ReserveStock inventory.NewService "product-2" 500 "o2" in
  inventorypb.ReserveStockResponse.Success <$>
    (match a.1 with Ok resp => Some resp | Err _ => None end) = Some true ∧
  inventorypb.StockQuantity <$> inventory.products a.2 !! "product-1" = Some 48 ∧
  b.1 = Ok {| inventorypb.ReserveStockResponse.Success := false;
              inventorypb.ReserveStockResponse.Message :=
                "Insufficient stock. Available: 100, Requested: 500";
              inventorypb.ReserveStockResponse.ReservedQuantity := 0 |} ∧
  b.2 = inventory.NewService.
Proof. vm_compute. repeat split. Qed.

(** C7, an oversized and a repeated release on the sample catalogue: after
    a reservation of 2 out of 50, a release of 5 leaves 53, and two
    releases of 2 leave 52. *)
Lemma ReleaseStock_scenarios :
  let stock ops :=
    inventorypb.StockQuantity <$>
      inventory.products (inventory.run inventory.NewService ops) !! "product-1" in
  stock [inventory.Reserve "product-1" 2 "o1"; inventory.Release "product-1" 5 "o1"]
  = Some 53 ∧
  stock [inventory.Reserve "product-1" 2 "o1"; inventory.Release "product-1" 2 "o1";
         inventory.Release "product-1" 2 "o1"]
  = Some 52.
Proof. vm_compute. by split. Qed.

(** C9, both outcomes on fixed sources: a draw of 0.25 is accepted, a draw
    of 0.9375 is declined, and the decline is a response, not an error. *)
Lemma ProcessPayment_scenarios :
  let req := {| paymentpb.OrderId := "uuid-0"; paymentpb.CustomerId := "customer-123";
                paymentpb.Amount := 1999.98%float; paymentpb.Currency := "USD";
                paymentpb.PaymentMethod := "credit_card" |} in
  (payment.ProcessPayment req scenario.accepting).1
  = Ok {| paymentpb.PaymentId := "uuid-1";
          paymentpb.Status := paymentpb.PaymentStatus_PAYMENT_STATUS_SUCCESS;
          paymentpb.Message := "Payment processed successfully";
          paymentpb.TransactionId := "txn_1700000000" |} ∧
  (payment.ProcessPayment req scenario.declining).1
  = Ok {| paymentpb.PaymentId := "uuid-1";
          paymentpb.Status := paymentpb.PaymentStatus_PAYMENT_STATUS_FAILED;
          paymentpb.Message := "Payment declined by bank";
          paymentpb.TransactionId := "txn_1700000000" |} ∧
  slept (payment.ProcessPayment req scenario.declining).2 = [350].
Proof. vm_compute. by repeat split. Qed.

(** C1, at its failing input.  The order asks for 2 of product-1 (50 in
    stock) and 500 of product-2 (100 in stock).  The first reservation
    succeeds, the second is declined; [CreateOrder] returns the error and
    stores nothing, and the only requests it sent are the two
    reservations: no release follows, and product-1 stays at 48. *)
Lemma CreateOrder_leaves_partial_reservation :
  let items := [scenario.laptop 2; scenario.mouse 500] in
  let run := system.CreateOrder order.NewService "customer-123" items scenario.accepting in
  run.1.1 = Err ("insufficient stock for product product-2: "
                 +:+ "Insufficient stock. Available: 100, Requested: 500") ∧
  run.1.2 = order.NewService ∧
  wire run.2 = [reserveRpc "uuid-1" (scenario.laptop 2);
                reserveRpc "uuid-1" (scenario.mouse 500)] ∧
  inventorypb.StockQuantity <$>
    inventory.products (ledger scenario.accepting) !! "product-1" = Some 50 ∧
  inventorypb.StockQuantity <$>
    inventory.products (ledger run.2) !! "product-1" = Some 48.
Proof. vm_compute. repeat split. Qed.

(** C2, witness: scenario C of the specification.  Both reservations
    succeed, the gateway declines, and both counters are back at their
    levels. *)
Lemma CreateOrder_compensates_witness :
  let items := [scenario.laptop 2; scenario.mouse 1] in
  ∃ err w3,
    system.CreateOrder order.NewService "customer-123" items scenario.declining
    = (Err err, order.NewService, w3) ∧
    ledger w3 = inventory.NewService.
Proof.
  intros items.
  pose (a := newOrder "customer-123" items scenario.declining).
  pose (b := reserveItems (Id a.1) items a.2).
  pose (c := paymentpb.ProcessPayment (paymentReq a.1) b.2).
  destruct (system_spec.CreateOrder_compensates order.NewService "customer-123" items
               scenario.declining a.2 b.2 c.2 a.1 c.1)
    as (err & w3 & Hcall & _ & _ & _ & Hledger).
  - apply NewService_wf.
  - apply surjective_pairing.
  - vm_compute. reflexivity.
  - apply surjective_pairing.
  - vm_compute. discriminate.
  - exists err, w3. split; [exact Hcall|]. apply Hledger. vm_compute. constructor.
Defined.

(** C2, where the claim fails.  The order asks for 2 of product-1 and 1
    of product-2; both reservations succeed and the gateway declines, but
    the connection drops the first release.  [CreateOrder] logs that
    error and goes on: it returns the error of the payment and stores
    nothing, all five requests were sent, and product-1 is left at 48
    instead of 50. *)
Lemma CreateOrder_dropped_release_leaks :
  let items := [scenario.laptop 2; scenario.mouse 1] in
  let run := system.CreateOrder order.NewService "customer-123" items scenario.dropping in
  let reserved := reserveItems "uuid-1" items (newOrder "customer-123" items scenario.dropping).2 in
  reserved.1 = None ∧
  inventorypb.StockQuantity <$>
    inventory.products (ledger reserved.2) !! "product-1" = Some 48 ∧
  run.1.1 = Err "payment failed: Payment declined by bank" ∧
  run.1.2 = order.NewService ∧
  wire run.2 = [reserveRpc "uuid-1" (scenario.laptop 2);
                reserveRpc "uuid-1" (scenario.mouse 1);
                RpcProcessPayment
                  {| paymentpb.OrderId := "uuid-1"; paymentpb.CustomerId := "customer-123";
                     paymentpb.Amount := 2029.97%float; paymentpb.Currency := "USD";
                     paymentpb.PaymentMethod := "credit_card" |};
                releaseRpc "uuid-1" (scenario.laptop 2);
                releaseRpc "uuid-1" (scenario.mouse 1)] ∧
  inventorypb.StockQuantity <$>
    inventory.products (ledger scenario.dropping) !! "product-1" = Some 50 ∧
  inventorypb.StockQuantity <$>
    inventory.products (ledger run.2) !! "product-1" = Some 48 ∧
  inventorypb.StockQuantity <$>
    inventory.products (ledger run.2) !! "product-2" = Some 100.
Proof. vm_compute. repeat split. Qed.

(** C6, witness: scenario D of the specification.  The reservation
    succeeds and the gateway accepts; the order is stored with the status
    PROCESSING and the total 1999.98, and product-1 stays at 48. *)
Lemma CreateOrder_succeeds_witness :
  let items := [scenario.laptop 2] in
  ∃ o s' w3,
    system.CreateOrder order.NewService "customer-123" items scenario.accepting
    = (Ok o, s', w3) ∧
    Status o = OrderStatus_ORDER_STATUS_PROCESSING ∧
    TotalAmount o = 1999.98%float ∧
    orders s' !! "uuid-1" = Some o ∧
    inventorypb.StockQuantity <$> inventory.products (ledger w3) !! "product-1" = Some 48.
Proof.
  intros items.
  pose (a := newOrder "customer-123" items scenario.accepting).
  pose (b := reserveItems (Id a.1) items a.2).
  pose (c := paymentpb.ProcessPayment (paymentReq a.1) b.2).
  pose (resp := match c.1 with
                | Ok resp => resp
                | Err _ =>
                    {| paymentpb.PaymentId := "";
                       paymentpb.Status := paymentpb.PaymentStatus_other 0;
                       paymentpb.Message := ""; paymentpb.TransactionId := "" |}
                end).
  destruct (system_spec.CreateOrder_succeeds order.NewService "customer-123" items
              scenario.accepting a.2 b.2 c.2 a.1 resp)
    as (o & s' & w3 & Hcall & Hst & _ & Hfields & Hs' & _ & _ & _ & Hlook).
  - apply NewService_wf.
  - apply surjective_pairing.
  - vm_compute. reflexivity.
  - vm_compute. reflexivity.
  - vm_compute. reflexivity.
  - exists o, s', w3. split; [exact Hcall|]. split; [exact Hst|].
    injection Hfields as Hid _ _ Htotal _.
    split; [rewrite Htotal; vm_compute; reflexivity|].
    split; [rewrite Hs', Hid; apply lookup_insert_eq|].
    rewrite Hlook. vm_compute. reflexivity.
Defined.


(** C4, witness: a reservation and its release on the sample catalogue. *)
Lemma ledger_non_negative_witness :
  let ops := [inventory.Reserve "product-1" 2 "o1";
              inventory.Release "product-1" 2 "o1";
              inventory.Release "product-2" 5 "o2"] in
  inventory.non_negative (inventory.run inventory.NewService (take 2 ops)).
Proof.
  intros ops.
  apply (inventory_spec.ledger_non_negative inventory.NewService ops 2).
  - apply NewService_wf.
  - apply NewService_non_negative.
  - repeat constructor.
  - vm_compute. reflexivity.
Defined.

(** C4, where the claim fails: one release of a positive quantity on the
    sample catalogue.  50 + 2147483647 is not an [int32]; the counter of
    product-1 wraps to -2147483599. *)
Lemma release_overflow_goes_negative :
  let ops := [inventory.Release "product-1" 2147483647 "o1"] in
  inventory.wf inventory.NewService ∧
  inventory.non_negative inventory.NewService ∧
  Forall (λ op, 0 < inventory.quantity_of op) ops ∧
  inventorypb.StockQuantity <$>
    inventory.products (inventory.run inventory.NewService ops) !! "product-1"
  = Some (-2147483599) ∧
  ¬ inventory.non_negative (inventory.run inventory.NewService ops).
Proof.
  intros ops. split; [apply NewService_wf|]. split; [apply NewService_non_negative|].
  split; [repeat constructor|].
  assert (Hlook : inventory.products (inventory.run inventory.NewService ops) !! "product-1"
                  = Some {| inventorypb.Id := "product-1"; inventorypb.Name := "Laptop";
                            inventorypb.StockQuantity := -2147483599;
                            inventorypb.Price := 999.99%float |})
    by (vm_compute; reflexivity).
  split; [by rewrite Hlook|].
  intros Hnn. apply Hnn in Hlook. cbn in Hlook. lia.
Qed.
End scenario_spec.

(** * Further properties of the ledger *)

Section AccountingFacts.
Import inventorypb inventory accounting.

(** An operation rewrites at most the record of the product it names, and
    what it writes depends on that record only. *)
Lemma step_lookup (s : service) (op : Op) (p : string) :
  products (step s op) !! p =
  if decide (p = product_of op) then touched op <$> products s !! p
  else products s !! p.
Proof.
  destruct op as [p' q o|p' q o]; cbn; unfold ReserveStock, ReleaseStock;
    destruct (decide (p = p')) as [->|Hne];
    destruct (products s !! p') as [product|] eqn:Hp; cbn; try done.
  - destruct (StockQuantity product <? q); cbn; [done|]. by rewrite lookup_insert_eq.
  - destruct (StockQuantity product <? q); cbn; [done|]. by rewrite lookup_insert_ne.
  - by rewrite lookup_insert_eq.
  - by rewrite lookup_insert_ne.
Qed.

Lemma step_other (s : service) (op : Op) (p : string) :
  p ≠ product_of op → products (step s op) !! p = products s !! p.
Proof. intros Hne. rewrite step_lookup. by destruct (decide (p = product_of op)). Qed.

Lemma service_ext (l l' : service) :
  (∀ p, products l !! p = products l' !! p) → l = l'.
Proof. destruct l, l'. cbn. intros H. f_equal. by apply map_eq. Qed.

Lemma touched_fields (op : Op) (product : Product) :
  Id (touched op product) = Id product ∧ Name (touched op product) = Name product ∧
  Price (touched op product) = Price product.
Proof.
  destruct op as [p q o|p q o]; cbn; [|done].
  by destruct (StockQuantity product <? q).
Qed.
Lemma release_swap (s : service) (x y : Op) :
  is_release x → is_release y → step (step s x) y = step (step s y) x.
Proof.
  destruct x as [|px qx ox], y as [|py qy oy]; try done. intros _ _.
  apply service_ext. intros p. rewrite !step_lookup. cbn.
  destruct (decide (p = py)) as [Hy|Hy], (decide (p = px)) as [Hx|Hx]; try done.
  destruct (products s !! p) as [product|]; [|done]. cbn. f_equal.
  unfold set_stock. cbn. f_equal. unfold Int32.add. rewrite !wrap_shift. f_equal. lia.
Qed.

(** One operation with a positive quantity on counters that are
    non-negative [int32]s, where a release fits: the counter of every
    product moves by exactly the units granted. *)
Lemma step_units (s : service) (op : Op) (p : string) (product : Product) :
  wf s → non_negative s → 0 < quantity_of op → fits s op = true →
  products s !! p = Some product →
  ∃ product',
    products (step s op) !! p = Some product' ∧
    StockQuantity product' =
      StockQuantity product - reserved_units p s [op] + released_units p s [op].
Proof.
  intros Hwf Hnn Hq Hfit Hp. rewrite step_lookup. cbn.
  destruct op as [p' q o|p' q o]; cbn in *.
  - destruct (decide (p = p')) as [->|Hne].
    + rewrite decide_True by done. unfold ReserveStock. rewrite Hp. cbn.
      destruct (Z.ltb_spec (StockQuantity product) q); cbn.
      * exists product. split; [done|]. lia.
      * eexists. split; [done|]. cbn. rewrite sub_exact; [lia| |done..].
        by apply (Hwf p' _ Hp).
    + rewrite decide_False by done. exists product. split; [done|]. lia.
  - destruct (decide (p = p')) as [->|Hne].
    + rewrite decide_True by done. unfold ReleaseStock. rewrite Hp in *. cbn.
      eexists. split; [done|]. cbn. apply Z.leb_le in Hfit.
      pose proof (Hnn p' _ Hp) as H0. cbn in H0.
      rewrite add_exact; [lia|]. unfold Int32.in_range, Int32.min_int. lia.
    + rewrite decide_False by done. exists product. split; [done|]. lia.
Qed.
End AccountingFacts.

Module ledger_more.
Import inventorypb inventory accounting.

(** X1. Whatever operations are run, [GetProductStock] fails afterwards
    exactly for the identifiers it failed for before, with the same error,
    and a product it returns has the identifier, name and price it had:
    the ledger never creates, removes or renames a product. *)
Theorem GetProductStock_after_run (ops : list Op) : ∀ (s : service) (p : string),
  match GetProductStock s p, GetProductStock (run s ops) p with
  | Err e, Err e' => e = e' ∧ e = "product not found: " +:+ p
  | Ok product, Ok product' =>
      Id product' = Id product ∧ Name product' = Name product ∧
      Price product' = Price product
  | _, _ => False
  end.
Proof.
  induction ops as [|op ops IH]; intros s p.
  - cbn. unfold GetProductStock. by destruct (products s !! p).
  - rewrite run_cons. specialize (IH (step s op) p).
    unfold GetProductStock in *. rewrite step_lookup in IH.
    destruct (decide (p = product_of op)) as [_|_]; [|done].
    destruct (products s !! p) as [product|]; [|done]. cbn in IH.
    destruct (products (run (step s op) ops) !! p); [|done].
    destruct (touched_fields op product) as (Hi & Hn & Hp).
    destruct IH as (-> & -> & ->). done.
Qed.

(** X2. A granted reservation followed by the release of the same quantity
    of the same product puts the ledger back exactly as it was, and the
    release reports success. *)
Theorem ReserveStock_ReleaseStock_round_trip (s : service) (p : string) (q : Z)
    (o o' : string) :
  wf s →
  granted s (Reserve p q o) = true →
  ReleaseStock (snd (ReserveStock s p q o)) p q o'
  = (Ok {| ReleaseStockResponse.Success := true;
           ReleaseStockResponse.Message := "Stock released successfully" |}, s).
Proof.
  intros Hwf. cbn. unfold ReserveStock.
  destruct (products s !! p) as [product|] eqn:Hp; [|done].
  destruct (StockQuantity product <? q); [done|]. cbn. intros _.
  unfold ReleaseStock. cbn. rewrite lookup_insert_eq. f_equal.
  destruct s as [m]. cbn in *. f_equal. rewrite insert_insert_eq.
  apply insert_id. rewrite Hp. f_equal.
  destruct product as [i n a pr]. unfold set_stock. cbn. f_equal.
  unfold Int32.add, Int32.sub. rewrite wrap_shift.
  replace (a - q + q) with a by lia. symmetry. apply wrap_id. by apply (Hwf p _ Hp).
Qed.

(** X3. Operations on different products do not see each other: the
    response to a reservation or a release of [p] is the same before and
    after an operation on another product, and two operations on
    different products leave the same ledger in either order. *)
Theorem step_commute (s : service) (op1 op2 : Op) :
  product_of op1 ≠ product_of op2 →
  step (step s op1) op2 = step (step s op2) op1 ∧
  (∀ q o, fst (ReserveStock (step s op2) (product_of op1) q o)
          = fst (ReserveStock s (product_of op1) q o)) ∧
  (∀ q o, fst (ReleaseStock (step s op2) (product_of op1) q o)
          = fst (ReleaseStock s (product_of op1) q o)).
Proof.
  intros Hne. split; [|split].
  - apply service_ext. intros p. rewrite !step_lookup.
    destruct (decide (p = product_of op1)) as [H1|H1],
             (decide (p = product_of op2)) as [H2|H2]; try done.
    by rewrite <- H1, H2 in Hne.
  - intros q o. unfold ReserveStock. rewrite (step_other s op2) by done.
    destruct (products s !! product_of op1) as [product|]; [|done].
    by destruct (StockQuantity product <? q).
  - intros q o. unfold ReleaseStock. rewrite (step_other s op2) by done.
    by destruct (products s !! product_of op1).
Qed.

(** X4. The order of releases is not significant: two sequences of
    releases that are permutations of each other leave the same ledger. *)
Theorem releases_in_any_order (ops ops' : list Op) :
  ops ≡ₚ ops' → Forall is_release ops → ∀ s : service, run s ops = run s ops'.
Proof.
  induction 1 as [|x l l' Hperm IH|x y l|l1 l2 l3 Hp1 IH1 Hp2 IH2]; intros Hrel s.
  - done.
  - rewrite !run_cons. apply IH. by inversion Hrel.
  - rewrite !run_cons. inversion Hrel as [|? ? Hy Hrel']; subst.
    inversion Hrel' as [|? ? Hx _]; subst. by rewrite release_swap.
  - rewrite IH1 by done. apply IH2. by rewrite <- Hp1.
Qed.

(** X5. Units are neither created nor lost.  Along a sequence of
    operations with positive quantities in which no release lifts a
    counter above the largest [int32], starting from non-negative
    [int32] counters, the counter of a product ends at its initial value
    minus the units of the reservations that were granted plus the units
    of the releases; so the reservations granted never exceed the initial
    stock plus what was released. *)
Theorem stock_conservation (ops : list Op) : ∀ (s : service) (p : string) (product : Product),
  wf s →
  non_negative s →
  Forall (λ op, 0 < quantity_of op) ops →
  no_overflow s ops = true →
  products s !! p = Some product →
  StockQuantity <$> products (run s ops) !! p
  = Some (StockQuantity product - reserved_units p s ops + released_units p s ops) ∧
  reserved_units p s ops ≤ StockQuantity product + released_units p s ops.
Proof.
  intros s p product Hwf Hnn Hpos Hfit Hp.
  assert (Hfinal : StockQuantity <$> products (run s ops) !! p
    = Some (StockQuantity product - reserved_units p s ops + released_units p s ops)).
  { revert s product Hwf Hnn Hpos Hfit Hp.
    induction ops as [|op ops IH]; intros s product Hwf Hnn Hpos Hfit Hp.
    - cbn. rewrite Hp. cbn. f_equal. lia.
    - cbn in Hfit. apply andb_prop in Hfit as [Hop Hrest].
      inversion Hpos as [|? ? Hq Hpos']; subst.
      destruct (step_units s op p product Hwf Hnn Hq Hop Hp) as (product' & Hp' & Hstock).
      rewrite run_cons.
      rewrite (IH (step s op) product'); [|by apply step_wf
        |by apply step_non_negative|done..].
      f_equal. rewrite Hstock. cbn [reserved_units released_units]. lia. }
  split; [done|].
  pose proof (run_non_negative ops s Hwf Hnn Hpos Hfit) as Hend.
  destruct (products (run s ops) !! p) as [final|] eqn:Hlook; [|done].
  apply Hend in Hlook. injection Hfinal as Hfinal. lia.
Qed.
Lemma ReserveStock_ReleaseStock_round_trip_witness :
  ReleaseStock (snd (ReserveStock NewService "product-1" 2 "o1")) "product-1" 2 "o1"
  = (Ok {| ReleaseStockResponse.Success := true;
           ReleaseStockResponse.Message := "Stock released successfully" |}, NewService).
Proof.
  apply (ReserveStock_ReleaseStock_round_trip NewService "product-1" 2 "o1" "o1").
  - apply NewService_wf.
  - vm_compute. reflexivity.
Defined.

Lemma step_commute_witness :
  let op1 := Reserve "product-1" 2 "o1" in
  let op2 := Release "product-2" 5 "o2" in
  step (step NewService op1) op2 = step (step NewService op2) op1 ∧
  (∀ q o, fst (ReserveStock (step NewService op2) "product-1" q o)
          = fst (ReserveStock NewService "product-1" q o)) ∧
  (∀ q o, fst (ReleaseStock (step NewService op2) "product-1" q o)
          = fst (ReleaseStock NewService "product-1" q o)).
Proof.
  intros op1 op2. apply (step_commute NewService op1 op2). cbn. discriminate.
Defined.

Lemma releases_in_any_order_witness :
  let a := Release "product-1" 2 "o1" in
  let b := Release "product-2" 5 "o2" in
  run NewService [a; b] = run NewService [b; a].
Proof.
  intros a b. apply (releases_in_any_order [a; b] [b; a]).
  - apply perm_swap.
  - repeat constructor.
Defined.

Lemma stock_conservation_witness :
  let ops := [Reserve "product-1" 2 "o1"; Reserve "product-1" 100 "o2";
              Release "product-1" 1 "o1"] in
  StockQuantity <$> products (run NewService ops) !! "product-1"
  = Some (50 - reserved_units "product-1" NewService ops
          + released_units "product-1" NewService ops) ∧
  reserved_units "product-1" NewService ops
  ≤ 50 + released_units "product-1" NewService ops.
Proof.
  intros ops.
  apply (stock_conservation ops NewService "product-1"
           {| Id := "product-1"; Name := "Laptop";
              StockQuantity := 50; Price := 999.99%float |}).
  - apply NewService_wf.
  - apply NewService_non_negative.
  - repeat constructor.
  - vm_compute. reflexivity.
  - reflexivity.
Defined.
End ledger_more.

(** * Further properties of the order service *)

Module order_more.
Import orderpb order.

(** X6. [CreateOrder] touches at most the entry of the identifier it
    generated: every other identifier reads the same before and after.
    When it returns an error the table is the table it was; when it
    returns an order, that order carries the generated identifier and is
    what [GetOrder] returns for it (an order already stored under that
    identifier is replaced). *)
Theorem CreateOrder_table_frame {W : Type}
    `{!inventorypb.InventoryServiceClient W, !paymentpb.PaymentServiceClient W, !Runtime W}
    (s : service) (customerID : string) (items : list OrderItem) (w : W) :
  let '(r, s', _) := CreateOrder s customerID items w in
  let orderID := fst (uuid_New w) in
  (∀ id, id ≠ orderID → GetOrder s' id = GetOrder s id) ∧
  match r with
  | Err _ => s' = s
  | Ok o => Id o = orderID ∧ GetOrder s' orderID = Ok o
  end.
Proof.
  unfold CreateOrder, newOrder.
  destruct (uuid_New w) as [orderID w1]. destruct (time_Now w1) as [t1 w2].
  destruct (time_Now w2) as [t2 w3]. cbn.
  destruct (reserveItems orderID items w3) as [[err|] w4]; [done|].
  destruct (paymentpb.ProcessPayment _ w4) as [[resp|err] w5]; [|done].
  destruct (negb (is_success (paymentpb.Status resp))); [done|].
  destruct (time_Now w5) as [t3 w6]. cbn. unfold GetOrder. cbn. split.
  - intros id Hne. by rewrite lookup_insert_ne.
  - by rewrite lookup_insert_eq.
Qed.

(** X7. The last status update wins: a second [UpdateOrderStatus] on the
    same identifier returns and stores exactly what it would have
    returned and stored had the first one not happened.  For a stored
    identifier both updates return the order, and the second one carries
    the second status and is what [GetOrder] returns afterwards; for an
    unknown identifier both fail with the not-found error and the table
    is left as it was. *)
Theorem UpdateOrderStatus_last_write_wins {W : Type} `{!Runtime W}
    (s : service) (orderID : string) (st1 st2 : OrderStatus) (w : W) :
  let '(r1, s1, w1) := UpdateOrderStatus s orderID st1 w in
  let '(r2, s2, w2) := UpdateOrderStatus s1 orderID st2 w1 in
  (r2, s2, w2) = UpdateOrderStatus s orderID st2 w1 ∧
  match orders s !! orderID with
  | Some _ =>
      is_Ok r1 = true ∧
      ∃ o, r2 = Ok o ∧ Status o = st2 ∧ GetOrder s2 orderID = Ok o
  | None =>
      r1 = Err ("order not found: " +:+ orderID) ∧
      r2 = Err ("order not found: " +:+ orderID) ∧
      s1 = s ∧ s2 = s ∧ w1 = w ∧ w2 = w
  end.
Proof.
  unfold UpdateOrderStatus.
  destruct (orders s !! orderID) as [o|] eqn:Ho.
  - destruct (time_Now w) as [t1 w1]. cbn. rewrite lookup_insert_eq.
    destruct (time_Now w1) as [t2 w2]. rewrite insert_insert_eq. split; [done|].
    split; [done|]. eexists. split; [done|]. split; [done|].
    unfold GetOrder. cbn. by rewrite lookup_insert_eq.
  - by rewrite Ho.
Qed.
End order_more.

Section ProtocolFacts.
Import orderpb order system.


End ProtocolFacts.

Module protocol.
Import orderpb order system.


End protocol.

(** * The request handlers and their metrics *)

Section MetricsFacts.
Import observability.
Context {K : Type} `{Countable K}.

Lemma value_Inc_eq (k : K) (vec : gmap K nat) : value k (Inc k vec) = S (value k vec).
Proof. unfold value, Inc. by rewrite lookup_insert_eq. Qed.

Lemma value_Inc_ne (k k' : K) (vec : gmap K nat) :
  k ≠ k' → value k' (Inc k vec) = value k' vec.
Proof. intros Hne. unfold value, Inc. by rewrite lookup_insert_ne. Qed.
End MetricsFacts.

Section InventoryServerFacts.
Import observability inventory_server.

Lemma serve_ledger (st : state) (req : Request) :
  (serve st req).1 = inventory.run st.1 (ops_of [req]).
Proof.
  destruct req as [r|r|r]; cbn.
  - unfold ReserveStock. by destruct (inventory.ReserveStock _ _ _ _) as [[?|?] ?].
  - unfold ReleaseStock. by destruct (inventory.ReleaseStock _ _ _ _) as [[?|?] ?].
  - unfold GetProductStock. by destruct (inventory.GetProductStock _ _) as [?|?].
Qed.

Lemma serve_counters (st : state) (req : Request) (p : string) :
  value (p, "error") (InventoryReservations (serve st req).2)
  = value (p, "error") (InventoryReservations st.2) ∧
  (value (p, "success") (InventoryReservations (serve st req).2)
   + value (p, "failed") (InventoryReservations (serve st req).2)
   = value (p, "success") (InventoryReservations st.2)
     + value (p, "failed") (InventoryReservations st.2)
     + reservations_of p [req])%nat.
Proof.
  unfold reservations_of.
  destruct req as [r|r|r]; cbn [serve List.filter reserves].
  - unfold ReserveStock, inventory.ReserveStock. destruct r as [pid q oid]. cbn.
    assert (Hcount : ∀ status, status = "success" ∨ status = "failed" →
      value (p, "error") (Inc (pid, status) (InventoryReservations st.2))
      = value (p, "error") (InventoryReservations st.2) ∧
      (value (p, "success") (Inc (pid, status) (InventoryReservations st.2))
       + value (p, "failed") (Inc (pid, status) (InventoryReservations st.2))
       = value (p, "success") (InventoryReservations st.2)
         + value (p, "failed") (InventoryReservations st.2)
         + length (if bool_decide (pid = p)
                   then [ReqReserveStock
                           {| inventorypb.ReserveStockRequest.ProductId := pid;
                              inventorypb.ReserveStockRequest.Quantity := q;
                              inventorypb.ReserveStockRequest.OrderId := oid |}]
                   else []))%nat).
    { intros status Hstatus. case_bool_decide as Hp; cbn [length].
      - subst p. split; [apply value_Inc_ne; intros [= Hs]; destruct Hstatus; congruence|].
        destruct Hstatus as [Hs|Hs]; subst status.
        + rewrite value_Inc_eq, value_Inc_ne by congruence. lia.
        + rewrite value_Inc_eq, value_Inc_ne by congruence. lia.
      - rewrite !value_Inc_ne by congruence. split; [done|lia]. }
    destruct (inventory.products st.1 !! pid) as [product|]; cbn.
    + destruct (inventorypb.StockQuantity product <? q); cbn; apply Hcount; auto.
    + apply Hcount; auto.
  - unfold ReleaseStock. destruct (inventory.ReleaseStock _ _ _ _) as [[?|?] ?].
    all: cbn; split; [done|lia].
  - unfold GetProductStock. destruct (inventory.GetProductStock _ _) as [?|?].
    all: cbn; split; [done|lia].
Qed.
End InventoryServerFacts.

Module inventory_server_spec.
Import observability inventory_server.

(** X10. Whatever requests the inventory server handles, its ledger ends
    as the ledger operations the requests ask for leave it (a stock query
    changes nothing), no reservation is ever counted under the status
    "error", and every reservation request for a product is counted
    exactly once, under "success" or under "failed". *)
Theorem serve_all_ledger_and_counters (reqs : list Request) : ∀ st : state,
  let st' := serve_all st reqs in
  st'.1 = inventory.run st.1 (ops_of reqs) ∧
  ∀ p,
    value (p, "error") (InventoryReservations st'.2)
    = value (p, "error") (InventoryReservations st.2) ∧
    (value (p, "success") (InventoryReservations st'.2)
     + value (p, "failed") (InventoryReservations st'.2)
     = value (p, "success") (InventoryReservations st.2)
       + value (p, "failed") (InventoryReservations st.2)
       + reservations_of p reqs)%nat.
Proof.
  induction reqs as [|req reqs IH]; intros st.
  - cbn. split; [done|]. intros p. unfold reservations_of. cbn. split; [done|lia].
  - cbn zeta in IH |- *. unfold serve_all in IH |- *. cbn [fold_left].
    destruct (IH (serve st req)) as [Hl Hc]. clear IH. split.
    + rewrite Hl, serve_ledger. unfold inventory.run. rewrite <- fold_left_app. f_equal.
      destruct req; reflexivity.
    + intros p. destruct (Hc p) as [He Hs].
      destruct (serve_counters st req p) as [He1 Hs1].
      split; [congruence|]. rewrite Hs, Hs1. unfold reservations_of. cbn [List.filter].
      destruct (reserves p req); cbn [length]; lia.
Qed.
End inventory_server_spec.

Module payment_server_spec.
Import observability payment_server.

(** X11. Whatever payment requests the payment server handles, none is
    ever counted under the status "error", and every request is counted
    exactly once, under "success" or under "failed"; the other metrics
    are not touched. *)
Theorem serve_all_counts_every_payment {W : Type} `{!Runtime W, !Rand W}
    (reqs : list paymentpb.PaymentRequest) : ∀ st : Metrics * W,
  let m := st.1 in
  let m' := (serve_all st reqs).1 in
  value "error" (PaymentsProcessed m') = value "error" (PaymentsProcessed m) ∧
  (value "success" (PaymentsProcessed m') + value "failed" (PaymentsProcessed m')
   = value "success" (PaymentsProcessed m) + value "failed" (PaymentsProcessed m)
     + length reqs)%nat ∧
  OrdersCreated m' = OrdersCreated m ∧
  InventoryReservations m' = InventoryReservations m ∧
  CurrentStock m' = CurrentStock m.
Proof.
  induction reqs as [|req reqs IH]; intros st.
  - cbn. repeat split; lia.
  - cbn zeta in IH |- *. unfold serve_all in IH |- *. cbn [fold_left].
    destruct (IH (ProcessPayment req st).2) as (He & Hs & Ho & Hi & Hc). clear IH.
    rewrite He, Hs, Ho, Hi, Hc. clear He Hs Ho Hi Hc.
    unfold ProcessPayment, payment.ProcessPayment.
    destruct (uuid_New st.2) as [paymentID w1]. destruct (time_Now w1) as [now w2].
    destruct (rand_Intn 500 w2) as [n w3].
    destruct (rand_Float32 (time_Sleep (n + 100) w3)) as [u w4].
    destruct (u <? payment.float32_0_9)%float; cbn -[Inc value].
    all: rewrite value_Inc_eq, !value_Inc_ne by done; repeat split; lia.
Qed.
End payment_server_spec.

Section OrderServerFacts.
Import observability order_server.
Context {W : Type}
  `{!Runtime W, !inventorypb.InventoryServiceClient W, !paymentpb.PaymentServiceClient W}.

(** The table after [CreateOrder]: untouched on an error, one insertion
    otherwise. *)
Lemma CreateOrder_table (s : order.service) (customerID : string)
    (items : list orderpb.OrderItem) (w : W) :
  let '(r, s', _) := order.CreateOrder s customerID items w in
  match r with
  | Err _ => s' = s
  | Ok o => s' = {| order.orders := <[orderpb.Id o := o]> (order.orders s) |}
  end.
Proof.
  unfold order.CreateOrder. destruct (order.newOrder customerID items w) as [o0 w0].
  destruct (order.reserveItems (orderpb.Id o0) items w0) as [[err|] w1]; [done|].
  destruct (paymentpb.ProcessPayment _ w1) as [[resp|err] w2]; [|done].
  destruct (negb (order.is_success (paymentpb.Status resp))); [done|].
  by destruct (time_Now w2) as [now w3].
Qed.

Lemma UpdateOrderStatus_table (s : order.service) (orderID : string)
    (status : orderpb.OrderStatus) (w : W) :
  let '(r, s', _) := order.UpdateOrderStatus s orderID status w in
  match r with
  | Err _ => s' = s
  | Ok o =>
      is_Some (order.orders s !! orderID) ∧
      s' = {| order.orders := <[orderID := o]> (order.orders s) |}
  end.
Proof.
  unfold order.UpdateOrderStatus. destruct (order.orders s !! orderID) as [o|]; [|done].
  by destruct (time_Now w) as [now w1].
Qed.

Lemma size_insert_le {A} (k : string) (x : A) (m : gmap string A) :
  (size (<[k := x]> m) ≤ S (size m))%nat.
Proof.
  destruct (m !! k) as [y|] eqn:Hk.
  - rewrite map_size_insert_Some by (by rewrite Hk). lia.
  - rewrite map_size_insert_None by done. lia.
Qed.

Lemma serve_order_table (st : state) (req : Request) :
  let s := st.1.1 in let m := OrdersCreated st.1.2 in
  let s' := (serve st req).1.1 in let m' := OrdersCreated (serve st req).1.2 in
  (∀ id, is_Some (order.orders s !! id) → is_Some (order.orders s' !! id)) ∧
  (value "success" m' + value "failed" m'
   = value "success" m + value "failed" m + (if creates req then 1 else 0))%nat ∧
  (size (order.orders s') + value "success" m
   ≤ size (order.orders s) + value "success" m')%nat.
Proof.
  destruct st as [[s m] w]. destruct req as [r|r|r]; cbn -[Inc value].
  - pose proof (CreateOrder_table s (CustomerId r) (Items r) w) as Ht.
    destruct (order.CreateOrder s (CustomerId r) (Items r) w) as [[[o|err] s'] w'].
    + subst s'. cbn -[Inc value]. rewrite value_Inc_eq, value_Inc_ne by done.
      split; [|split; [lia|]].
      * intros id Hid. destruct (decide (id = orderpb.Id o)) as [->|Hne].
        -- by rewrite lookup_insert_eq.
        -- by rewrite lookup_insert_ne.
      * pose proof (size_insert_le (orderpb.Id o) o (order.orders s)). lia.
    + subst s'. cbn -[Inc value]. rewrite value_Inc_eq, value_Inc_ne by done.
      split; [done|]. split; lia.
  - destruct (order.GetOrder s _); cbn; split; [done| |done|]; split; lia.
  - pose proof (UpdateOrderStatus_table s (UpdateOrderStatusRequest_OrderId r)
                  (NewStatus r) w) as Ht.
    destruct (order.UpdateOrderStatus s _ _ w) as [[[o|err] s'] w'].
    + destruct Ht as [Hsome ->]. cbn -[Inc value]. split; [|split; [lia|]].
      * intros id Hid.
        destruct (decide (id = UpdateOrderStatusRequest_OrderId r)) as [->|Hne].
        -- by rewrite lookup_insert_eq.
        -- by rewrite lookup_insert_ne.
      * rewrite map_size_insert_Some by done. lia.
    + subst s'. cbn -[Inc value]. split; [done|]. split; lia.
Qed.
End OrderServerFacts.

Module order_server_spec.
Import observability order_server.

(** X12. Whatever requests the order server handles, and whatever the
    inventory and payment services answer: an order that is stored stays
    stored, every creation request is counted exactly once, under
    "success" or under "failed" (queries and status updates are not
    counted), and the table grows by at most one order per creation
    counted under "success". *)
Theorem serve_all_orders_and_counters {W : Type}
    `{!Runtime W, !inventorypb.InventoryServiceClient W, !paymentpb.PaymentServiceClient W}
    (reqs : list Request) : ∀ st : state (W := W),
  let s := st.1.1 in let m := OrdersCreated st.1.2 in
  let s' := (serve_all st reqs).1.1 in let m' := OrdersCreated (serve_all st reqs).1.2 in
  (∀ id, is_Some (order.orders s !! id) → is_Some (order.orders s' !! id)) ∧
  (value "success" m' + value "failed" m'
   = value "success" m + value "failed" m + creations_of reqs)%nat ∧
  (size (order.orders s') + value "success" m
   ≤ size (order.orders s) + value "success" m')%nat.
Proof.
  induction reqs as [|req reqs IH]; intros st.
  - cbn. unfold creations_of. cbn. split; [done|]. split; lia.
  - cbn zeta in IH |- *. unfold serve_all in IH |- *. cbn [fold_left].
    destruct (IH (serve st req)) as (Hkeep & Hcount & Hsize). clear IH.
    destruct (serve_order_table st req) as (Hkeep1 & Hcount1 & Hsize1).
    split; [|split].
    + intros id Hid. by apply Hkeep, Hkeep1.
    + rewrite Hcount, Hcount1. unfold creations_of. cbn [List.filter].
      destruct (creates req); cbn [length]; lia.
    + lia.
Qed.
End order_server_spec.
